(** * analyze_sse.py: additive-update analysis of SSE logs

    A shallow embedding of [analyze_sse_logs] (src/analyze_sse.py) and the
    properties of its log-to-event extraction, per-part sequencing and
    prefix-divergence scan, of the analysis of duplicate part identifiers
    that its caller runs, and of [fibonacci] (src/fibonacci.py).

    Conventions of the embedding.
    - A Python [str] is a [string]; one [ascii] stands for one character.
    - The values [json.loads] can return are the type [pyval].
    - An uncaught Python exception is the [Raise] outcome of [result]; a
      raised exception leaves [analyze_sse_logs] at once, so no state is
      returned with it.
    - [print] only writes to standard output.  The text it writes is not
      part of the model, but every expression evaluated for a [print]
      that can raise (such as [len(text)]) is.
    - The file is given as the list of its lines, each line as the
      iteration [for line in f] yields it (with its line terminator). *)

From Stdlib Require Import String Ascii List ZArith Bool Arith Lia Sorted.
From Stdlib Require Import Floats.SpecFloat.
Import ListNotations.
Local Open Scope string_scope.
Local Open Scope list_scope.

Set Implicit Arguments.

(** ** Python values and exceptions *)

(** The range of [json.loads]: [None], [bool], [int], [float] (a binary64
    in canonical form), [str], [list] and [dict] with [str] keys.  A
    [dict] is an association list in insertion order with no repeated
    key. *)
#[warnings="-register-all"] Inductive pyval : Type :=
| PNone
| PBool (b : bool)
| PInt (z : Z)
| PFloat (f : spec_float)
| PStr (s : string)
| PList (l : list pyval)
| PDict (d : list (string * pyval)).

(** The exceptions that occur in the program.  [RecursionError] and
    [ValueError] can leave [json.loads] (deep nesting, over-long integer
    literals) and are not [JSONDecodeError]. *)
Inductive exn : Type :=
| JSONDecodeError
| AttributeError
| TypeError
| IndexError
| RecursionError
| ValueError.

Inductive result (A : Type) : Type :=
| Ok (a : A)
| Raise (e : exn).
Arguments Raise {A} e.

Definition bind {A B : Type} (r : result A) (k : A -> result B) : result B :=
  match r with
  | Ok a => k a
  | Raise e => Raise e
  end.

Declare Scope py_scope.
Delimit Scope py_scope with py.
Notation "x <- c ;; k" := (bind c (fun x => k))
  (at level 61, c at next level, right associativity) : py_scope.
Notation "c ;;; k" := (bind c (fun _ => k))
  (at level 61, right associativity) : py_scope.
Local Open Scope py_scope.

Definition succeeds {A : Type} (r : result A) : bool :=
  match r with
  | Ok _ => true
  | Raise _ => false
  end.

(** Truth-value testing, as [if v:] and [a and b] perform it. *)
Definition truthy (v : pyval) : bool :=
  match v with
  | PNone => false
  | PBool b => b
  | PInt z => negb (z =? 0)%Z
  | PFloat (S754_zero _) => false
  | PFloat _ => true
  | PStr s => negb (s =? "")
  | PList l => negb (Nat.eqb (List.length l) 0)
  | PDict d => negb (Nat.eqb (List.length d) 0)
  end.

(** [len(v)]: defined on [str], [list] and [dict]; a [TypeError] on the
    other values. *)
Definition py_len (v : pyval) : result nat :=
  match v with
  | PStr s => Ok (String.length s)
  | PList l => Ok (List.length l)
  | PDict d => Ok (List.length d)
  | _ => Raise TypeError
  end.

(** [d.get(key)] on the association list of a [dict]. *)
Fixpoint dict_get (key : string) (d : list (string * pyval)) : option pyval :=
  match d with
  | [] => None
  | (k, v) :: rest => if k =? key then Some v else dict_get key rest
  end.

(** [v.get(key, default)]: only a [dict] has the attribute [get]. *)
Definition get_default (default : pyval) (o : option pyval) : pyval :=
  match o with
  | Some v => v
  | None => default
  end.

Definition py_get (v : pyval) (key : string) (default : pyval) : result pyval :=
  match v with
  | PDict d => Ok (get_default default (dict_get key d))
  | _ => Raise AttributeError
  end.

(** *** Dictionary keys *)

(** [list] and [dict] are unhashable; the scalars are hashable. *)
Definition hashable (v : pyval) : bool :=
  match v with
  | PList _ | PDict _ => false
  | _ => true
  end.

(** Exact comparison of a binary64 with an integer. *)
Definition float_eq_int (f : spec_float) (z : Z) : bool :=
  match f with
  | S754_zero _ => (z =? 0)%Z
  | S754_finite s m e =>
      let v := if s then Z.neg m else Z.pos m in
      if (0 <=? e)%Z then (z =? v * 2 ^ e)%Z else (z * 2 ^ (- e) =? v)%Z
  | _ => false
  end.

Definition is_nan (f : spec_float) : bool :=
  match f with
  | S754_nan => true
  | _ => false
  end.

(** Equality of two hashable values as dictionary keys.  [True == 1] and
    [1 == 1.0] hold in Python; the [NaN] that [json.loads] returns is one
    object, which a dictionary finds again by identity. *)
Definition key_eqb (a b : pyval) : bool :=
  match a, b with
  | PNone, PNone => true
  | PStr s, PStr t => s =? t
  | PBool x, PBool y => Bool.eqb x y
  | PBool x, PInt z | PInt z, PBool x => (Z.b2z x =? z)%Z
  | PBool x, PFloat f | PFloat f, PBool x => float_eq_int f (Z.b2z x)
  | PInt x, PInt y => (x =? y)%Z
  | PInt z, PFloat f | PFloat f, PInt z => float_eq_int f z
  | PFloat f, PFloat g => SFeqb f g || (is_nan f && is_nan g)
  | _, _ => false
  end.

(** ** The SSE marker: [re.compile(r'SSE line: data: (.+)')] *)

Definition sse_marker : string := "SSE line: data: ".

Definition newline : ascii := "010"%char.

(** [strip_prefix p s] is the rest of [s] after [p], when [s] starts
    with [p]. *)
Fixpoint strip_prefix (p s : string) : option string :=
  match p with
  | EmptyString => Some s
  | String a p' =>
      match s with
      | EmptyString => None
      | String b s' => if Ascii.eqb a b then strip_prefix p' s' else None
      end
  end.

(** What the greedy group of the pattern takes: the longest run of
    characters other than the newline (the dot matches no newline). *)
Fixpoint dot_star (s : string) : string :=
  match s with
  | EmptyString => EmptyString
  | String c s' => if Ascii.eqb c newline then EmptyString else String c (dot_star s')
  end.

(** [sse_pattern.search(line)]: the leftmost position where the marker
    is followed by at least one character other than the newline;
    [match.group(1)] is the result. *)
Fixpoint sse_search (line : string) : option string :=
  match line with
  | EmptyString => None
  | String _ rest =>
      match strip_prefix sse_marker line with
      | Some tail =>
          match dot_star tail with
          | EmptyString => sse_search rest
          | payload => Some payload
          end
      | None => sse_search rest
      end
  end.

(** The line contains the marker somewhere. *)
Definition contains_marker (line : string) : Prop :=
  exists pre post, line = (pre ++ sse_marker ++ post)%string.

(** ** Reading the log (lines 10-42) *)

(** The dictionary stored for one update (lines 34-38). *)
Record update : Type := mk_update {
  text : pyval;
  type : pyval;
  full_data : pyval
}.

(** [message_parts]: a [defaultdict] of [defaultdict]s of lists, as
    association lists in insertion order (the order [items()] follows). *)
Definition part_table : Type := list (pyval * list update).
Definition message_table : Type := list (pyval * part_table).

(** [d[k]] on a [defaultdict] followed by a mutation [f] of the entry: an
    existing entry is changed in place, a missing one is created from
    [default] at the end. *)
Fixpoint dd_update {V : Type} (k : pyval) (f : V -> V) (default : V)
    (d : list (pyval * V)) : list (pyval * V) :=
  match d with
  | [] => [(k, f default)]
  | (k', v) :: rest =>
      if key_eqb k' k then (k', f v) :: rest
      else (k', v) :: dd_update k f default rest
  end.

Fixpoint dd_lookup {V : Type} (k : pyval) (d : list (pyval * V)) : option V :=
  match d with
  | [] => None
  | (k', v) :: rest => if key_eqb k' k then Some v else dd_lookup k rest
  end.

(** The history of a part: [message_parts[m][p]] read without creating
    entries; a part that was never stored has the empty history. *)
Definition history (mp : message_table) (m p : pyval) : list update :=
  match dd_lookup m mp with
  | Some parts =>
      match dd_lookup p parts with
      | Some us => us
      | None => []
      end
  | None => []
  end.

(** Line 39: [message_parts[message_id][part_id].append(update)].  Both
    subscripts hash their key. *)
Definition append_update (mp : message_table) (m p : pyval) (u : update)
    : result message_table :=
  if negb (hashable m) then Raise TypeError
  else if negb (hashable p) then Raise TypeError
  else Ok (dd_update m (dd_update p (fun us => us ++ [u]) []) [] mp).

Definition part_updated : string := "message.part.updated".

(** [data.get('type') == 'message.part.updated'] on the value read. *)
Definition is_part_updated (v : pyval) : bool :=
  match v with
  | PStr s => s =? part_updated
  | _ => false
  end.

(** Lines 27-38 on the part of an event: the update to store with
    its two keys, or nothing. *)
Definition project_part (part : pyval) : result (option (pyval * pyval * update)) :=
  message_id <- py_get part "messageID" PNone ;;
  part_id <- py_get part "id" PNone ;;
  text <- py_get part "text" (PStr "") ;;
  part_type <- py_get part "type" PNone ;;
  if truthy message_id && truthy part_id then
    Ok (Some (message_id, part_id,
              {| text := text; type := part_type; full_data := part |}))
  else Ok None.

(** Lines 23-38 on a decoded payload. *)
Definition project_data (data : pyval) : result (option (pyval * pyval * update)) :=
  ty <- py_get data "type" PNone ;;
  if is_part_updated ty then
    props <- py_get data "properties" (PDict []) ;;
    part <- py_get props "part" (PDict []) ;;
    project_part part
  else Ok None.

Section Reader.

(** [json.loads], as a function of the payload: the decoded value or
    the exception raised. *)
Variable json_loads : string -> result pyval.

(** Lines 17-42 up to the store: [None] when the line is passed over
    (no match, [JSONDecodeError], another event type, a missing key). *)
Definition project_line (line : string) : result (option (pyval * pyval * update)) :=
  match sse_search line with
  | None => Ok None
  | Some payload =>
      match json_loads payload with
      | Raise JSONDecodeError => Ok None
      | Raise e => Raise e
      | Ok data => project_data data
      end
  end.

(** One iteration of the loop of line 16. *)
Definition process_line (mp : message_table) (line : string) : result message_table :=
  ev <- project_line line ;;
  match ev with
  | None => Ok mp
  | Some (m, p, u) => append_update mp m p u
  end.

(** The loop of lines 15-42. *)
Fixpoint read_log (mp : message_table) (lines : list string) : result message_table :=
  match lines with
  | [] => Ok mp
  | line :: rest => mp' <- process_line mp line ;; read_log mp' rest
  end.

End Reader.

(** ** The scan for content changes (lines 44-118) *)

(** An entry of [prefix_changes] (lines 84-91). *)
Record finding : Type := mk_finding {
  message_id : pyval;
  part_id : pyval;
  update_num : nat;
  prev : string;
  curr : string;
  common_prefix : string
}.

(** The two accumulators of the scan. *)
Record scan_state : Type := mk_state {
  erasure_found : bool;
  prefix_changes : list finding
}.

Definition initial_state : scan_state :=
  {| erasure_found := false; prefix_changes := [] |}.

(** [s[j]] on a [str], [j >= 0]. *)
Definition py_index (s : string) (j : nat) : result ascii :=
  match String.get j s with
  | Some c => Ok c
  | None => Raise IndexError
  end.

(** The loop of lines 75-79 over the remaining indices [js] of the
    range, with the prefix built so far. *)
Fixpoint common_prefix_loop (js : list nat) (prev_text text common_prefix : string)
    : result string :=
  match js with
  | [] => Ok common_prefix
  | j :: js' =>
      a <- py_index prev_text j ;;
      b <- py_index text j ;;
      if Ascii.eqb a b then
        common_prefix_loop js' prev_text text (common_prefix ++ String a "")%string
      else Ok common_prefix
  end.

(** Lines 74-79. *)
Definition scan_common_prefix (prev_text text : string) : result string :=
  common_prefix_loop
    (seq 0 (Nat.min (String.length prev_text) (String.length text)))
    prev_text text "".

(** Lines 66-91: the comparison of an update with the text before it. *)
Definition check_update (mid pid : pyval) (i : nat) (prev_text text : pyval)
    (st : scan_state) : result scan_state :=
  if truthy prev_text && truthy text then
    match text with
    | PStr t =>
        match prev_text with
        | PStr p =>
            if negb (String.prefix p t) then
              cp <- scan_common_prefix p t ;;
              Ok {| erasure_found := true;
                    prefix_changes :=
                      if truthy (PStr cp) then
                        prefix_changes st ++
                          [{| message_id := mid; part_id := pid;
                              update_num := i + 1;
                              prev := p; curr := t; common_prefix := cp |}]
                      else prefix_changes st |}
            else Ok st
        | _ => Raise TypeError
        end
    | _ => Raise AttributeError
    end
  else Ok st.

(** A slice [v[a:b]]: defined on [str] and [list]; a [dict] raises
    ([TypeError] for the unhashable slice; [KeyError] from Python 3.12). *)
Definition py_slice (v : pyval) : result unit :=
  match v with
  | PStr _ | PList _ => Ok tt
  | _ => Raise TypeError
  end.

(** Lines 94-98: what showing the text evaluates. *)
Definition show_text (text : pyval) : result unit :=
  if truthy text then
    n <- py_len text ;;
    if (n <=? 60)%nat then Ok tt else py_slice text
  else Ok tt.

(** The body of the loop of line 59, lines 60-98; line 100 is the
    [text u] that [scan_updates] passes on. *)
Definition scan_update (mid pid : pyval) (i : nat) (prev_text : pyval)
    (st : scan_state) (u : update) : result scan_state :=
  py_len (text u) ;;;
  st' <- check_update mid pid i prev_text (text u) st ;;
  show_text (text u) ;;;
  Ok st'.

(** The loop of lines 59-100 from index [i] with the baseline
    [prev_text]. *)
Fixpoint scan_updates (mid pid : pyval) (i : nat) (prev_text : pyval)
    (st : scan_state) (updates : list update) : result scan_state :=
  match updates with
  | [] => Ok st
  | u :: rest =>
      st' <- scan_update mid pid i prev_text st u ;;
      scan_updates mid pid (S i) (text u) st' rest
  end.

(** The loop of lines 53-102: each part starts from [prev_text = ""]. *)
Fixpoint scan_parts (mid : pyval) (st : scan_state) (parts : part_table)
    : result scan_state :=
  match parts with
  | [] => Ok st
  | (pid, updates) :: rest =>
      st' <- scan_updates mid pid 0 (PStr "") st updates ;;
      scan_parts mid st' rest
  end.

(** The loop of lines 50-102. *)
Fixpoint scan_messages (st : scan_state) (mp : message_table) : result scan_state :=
  match mp with
  | [] => Ok st
  | (mid, parts) :: rest =>
      st' <- scan_parts mid st parts ;;
      scan_messages st' rest
  end.

(** [analyze_sse_logs]: the returned pair [(message_parts,
    prefix_changes)], and with it the flag [erasure_found] that selects
    the summary of lines 106-116. *)
Definition analyze_sse_logs (json_loads : string -> result pyval)
    (lines : list string) : result (message_table * scan_state) :=
  mp <- read_log json_loads [] lines ;;
  st <- scan_messages initial_state mp ;;
  Ok (mp, st).

(** ** A JSON decoder to run the model on log lines

    The reader is stated for any [json_loads].  To evaluate it on lines
    of text, [json_decode] decodes the JSON grammar with integer numbers
    and the escapes of one character; a fractional or exponent number and
    a [\u] escape are outside of what it covers and are reported as
    [JSONDecodeError], and it puts no bound on the length of an integer.
    Like [json.loads] it accepts [NaN], [Infinity] and [-Infinity], and
    keeps the last value of a repeated key. *)

Definition quote : ascii := "034"%char.
Definition backslash : ascii := "092"%char.

Definition is_ws (c : ascii) : bool :=
  Ascii.eqb c " " || Ascii.eqb c "009" || Ascii.eqb c "010" || Ascii.eqb c "013".

Fixpoint skip_ws (s : string) : string :=
  match s with
  | String c r => if is_ws c then skip_ws r else s
  | EmptyString => s
  end.

(** [expect c s]: the rest of [s] after its first character [c]. *)
Definition expect (c : ascii) (s : string) : option string :=
  match s with
  | String c' r => if Ascii.eqb c' c then Some r else None
  | EmptyString => None
  end.

Definition unescape (c : ascii) : option ascii :=
  if Ascii.eqb c quote then Some quote
  else if Ascii.eqb c backslash then Some backslash
  else if Ascii.eqb c "/" then Some "/"%char
  else if Ascii.eqb c "b" then Some "008"%char
  else if Ascii.eqb c "f" then Some "012"%char
  else if Ascii.eqb c "n" then Some "010"%char
  else if Ascii.eqb c "r" then Some "013"%char
  else if Ascii.eqb c "t" then Some "009"%char
  else None.

(** The characters of a string literal after its opening quote, and the
    text after its closing quote. *)
Fixpoint scan_string (s : string) : option (string * string) :=
  match s with
  | EmptyString => None
  | String c r =>
      if Ascii.eqb c quote then Some (EmptyString, r)
      else if Ascii.eqb c backslash then
        match r with
        | String e r' =>
            match unescape e, scan_string r' with
            | Some x, Some (body, rest) => Some (String x body, rest)
            | _, _ => None
            end
        | EmptyString => None
        end
      else if (nat_of_ascii c <? 32)%nat then None
      else
        match scan_string r with
        | Some (body, rest) => Some (String c body, rest)
        | None => None
        end
  end.

Definition digit_of (c : ascii) : option Z :=
  let n := nat_of_ascii c in
  if ((48 <=? n) && (n <=? 57))%nat then Some (Z.of_nat (n - 48)) else None.

Fixpoint scan_digits (acc : Z) (s : string) : Z * string :=
  match s with
  | EmptyString => (acc, s)
  | String c r =>
      match digit_of c with
      | Some d => scan_digits (10 * acc + d) r
      | None => (acc, s)
      end
  end.

(** An integer literal: [0], or a digit from 1 to 9 and more digits. *)
Definition scan_int (s : string) : option (Z * string) :=
  match s with
  | EmptyString => None
  | String c r =>
      match digit_of c with
      | Some 0%Z => Some (0%Z, r)
      | Some d => Some (scan_digits d r)
      | None => None
      end
  end.

Definition starts_fraction (s : string) : bool :=
  match s with
  | String c _ => Ascii.eqb c "." || Ascii.eqb c "e" || Ascii.eqb c "E"
  | EmptyString => false
  end.

Definition scan_number (s : string) : option (pyval * string) :=
  let signed :=
    match expect "-" s with
    | Some r => option_map (fun zr => (- fst zr, snd zr)%Z) (scan_int r)
    | None => scan_int s
    end in
  match signed with
  | Some (z, r) => if starts_fraction r then None else Some (PInt z, r)
  | None => None
  end.

Definition scan_constant (s : string) : option (pyval * string) :=
  match strip_prefix "null" s with
  | Some r => Some (PNone, r)
  | None =>
  match strip_prefix "true" s with
  | Some r => Some (PBool true, r)
  | None =>
  match strip_prefix "false" s with
  | Some r => Some (PBool false, r)
  | None =>
  match strip_prefix "NaN" s with
  | Some r => Some (PFloat S754_nan, r)
  | None =>
  match strip_prefix "Infinity" s with
  | Some r => Some (PFloat (S754_infinity false), r)
  | None =>
  match strip_prefix "-Infinity" s with
  | Some r => Some (PFloat (S754_infinity true), r)
  | None => scan_number s
  end end end end end end.

(** [dict] construction from the pairs of an object: a repeated key
    keeps its place and takes the later value. *)
Fixpoint dict_set (k : string) (v : pyval) (d : list (string * pyval))
    : list (string * pyval) :=
  match d with
  | [] => [(k, v)]
  | (k', v') :: r =>
      if k' =? k then (k', v) :: r else (k', v') :: dict_set k v r
  end.

Fixpoint decode_value (fuel : nat) (s : string) : option (pyval * string) :=
  match fuel with
  | 0 => None
  | S fuel' =>
      match s with
      | EmptyString => None
      | String c r =>
          if Ascii.eqb c quote then
            option_map (fun br => (PStr (fst br), snd br)) (scan_string r)
          else if Ascii.eqb c "{" then
            match expect "}" (skip_ws r) with
            | Some r' => Some (PDict [], r')
            | None => decode_members fuel' [] (skip_ws r)
            end
          else if Ascii.eqb c "[" then
            match expect "]" (skip_ws r) with
            | Some r' => Some (PList [], r')
            | None => decode_elements fuel' [] (skip_ws r)
            end
          else scan_constant s
      end
  end
with decode_elements (fuel : nat) (acc : list pyval) (s : string)
    : option (pyval * string) :=
  match fuel with
  | 0 => None
  | S fuel' =>
      match decode_value fuel' s with
      | Some (v, r) =>
          match expect "]" (skip_ws r) with
          | Some r' => Some (PList (acc ++ [v]), r')
          | None =>
              match expect "," (skip_ws r) with
              | Some r' => decode_elements fuel' (acc ++ [v]) (skip_ws r')
              | None => None
              end
          end
      | None => None
      end
  end
with decode_members (fuel : nat) (acc : list (string * pyval)) (s : string)
    : option (pyval * string) :=
  match fuel with
  | 0 => None
  | S fuel' =>
      match expect quote s with
      | Some r =>
          match scan_string r with
          | Some (k, r1) =>
              match expect ":" (skip_ws r1) with
              | Some r2 =>
                  match decode_value fuel' (skip_ws r2) with
                  | Some (v, r3) =>
                      match expect "}" (skip_ws r3) with
                      | Some r4 => Some (PDict (dict_set k v acc), r4)
                      | None =>
                          match expect "," (skip_ws r3) with
                          | Some r4 =>
                              decode_members fuel' (dict_set k v acc) (skip_ws r4)
                          | None => None
                          end
                      end
                  | None => None
                  end
              | None => None
              end
          | None => None
          end
      | None => None
      end
  end.

Definition json_decode (s : string) : result pyval :=
  match decode_value (2 * String.length s + 2) (skip_ws s) with
  | Some (v, r) =>
      match skip_ws r with
      | EmptyString => Ok v
      | _ => Raise JSONDecodeError
      end
  | None => Raise JSONDecodeError
  end.

(** Log lines are written below with an apostrophe in the place of
    each double quote; [dq] puts the double quotes back. *)
Fixpoint dq (s : string) : string :=
  match s with
  | EmptyString => EmptyString
  | String c r => String (if Ascii.eqb c "'" then quote else c) (dq r)
  end.

(** ** Example log lines *)

Definition eol : string := String newline "".

(** A log line with a part update for message [m], part [p] and the
    text [t] (all three free of quotes and backslashes). *)
Definition event_line (m p t : string) : string :=
  (dq "12:00:01 DEBUG SSE line: data: {'type':'message.part.updated','properties':{'part':{'messageID':'"
   ++ m ++ dq "','id':'" ++ p ++ dq "','type':'text','text':'" ++ t ++ dq "'}}}" ++ eol)%string.

(** The update that [event_line m p t] stores. *)
Definition event_update (m p t : string) : update :=
  {| text := PStr t; type := PStr "text";
     full_data := PDict [("messageID", PStr m); ("id", PStr p);
                         ("type", PStr "text"); ("text", PStr t)] |}.

(** A line whose payload is the JSON array [[1]]. *)
Definition array_line : string :=
  ("12:00:02 DEBUG SSE line: data: [1]" ++ eol)%string.

(** A line whose payload is cut off in the middle of an object. *)
Definition truncated_line : string :=
  (dq "12:00:03 DEBUG SSE line: data: {'type':'message.part.upd" ++ eol)%string.

(** ** Vocabulary of the properties *)

(** The longest common prefix by structural recursion: the characters
    up to the first mismatch or the end of the shorter string. *)
Fixpoint lcp (a b : string) : string :=
  match a, b with
  | String x a', String y b' =>
      if Ascii.eqb x y then String x (lcp a' b') else EmptyString
  | _, _ => EmptyString
  end.

(** [s] is a proper prefix of [t]. *)
Definition proper_prefix (s t : string) : Prop :=
  String.prefix s t = true /\ s <> t.

(** The violation condition on two texts: both non-empty and the
    current one does not start with the previous one. *)
Definition violates (previous current : string) : bool :=
  negb (previous =? "") && negb (current =? "") && negb (String.prefix previous current).

(** The same on stored values; only two [str] values can violate. *)
Definition violating (previous current : pyval) : bool :=
  match previous, current with
  | PStr p, PStr t => violates p t
  | _, _ => false
  end.

(** The entries a pair (previous, current) at update number [n] puts
    into [prefix_changes]. *)
Definition pair_findings (mid pid : pyval) (n : nat) (previous current : string)
    : list finding :=
  if violates previous current && negb (lcp previous current =? "") then
    [{| message_id := mid; part_id := pid; update_num := n;
        prev := previous; curr := current;
        common_prefix := lcp previous current |}]
  else [].

(** The adjacent pairs of a history that starts with the baseline
    [previous]: each text with the text immediately before it and its
    update number, counted from [i + 1]. *)
Definition adjacent_pairs (i : nat) (previous : string) (texts : list string)
    : list (nat * (string * string)) :=
  combine (seq (i + 1) (List.length texts)) (combine (previous :: texts) texts).

Definition is_str (v : pyval) : bool :=
  match v with
  | PStr _ => true
  | _ => false
  end.

(** A history all of whose texts are strings, as the input shape
    prescribes. *)
Definition str_texts (updates : list update) : bool :=
  forallb (fun u => is_str (text u)) updates.

(** An update with the text [s] and no part type. *)
Definition text_update (s : string) : update :=
  {| text := PStr s; type := PNone; full_data := PDict [("text", PStr s)] |}.

(** The text that is the baseline after a scan of [updates] that
    started with [previous]. *)
Definition last_text (previous : pyval) (updates : list update) : pyval :=
  last (map text updates) previous.

(** Some adjacent pair of a part history violates. *)
Definition part_violation (updates : list update) : bool :=
  existsb (fun ab => violating (fst ab) (snd ab))
    (combine (PStr "" :: map text updates) (map text updates)).

Definition run_violation (mp : message_table) : bool :=
  existsb (fun m => existsb (fun p => part_violation (snd p)) (snd m)) mp.

(** What holds of every entry of [prefix_changes]. *)
Definition finding_ok (f : finding) : Prop :=
  prev f <> "" /\ curr f <> "" /\
  String.prefix (prev f) (curr f) = false /\
  common_prefix f <> "" /\
  common_prefix f = lcp (prev f) (curr f) /\
  proper_prefix (common_prefix f) (prev f) /\
  String.prefix (common_prefix f) (curr f) = true.

(** A key the store accepts: it passes the test of line 32 and can be
    hashed.  For a string this is to be non-empty. *)
Definition usable_key (v : pyval) : bool := truthy v && hashable v.

(** The line carries a part update with the keys [m] and [p] and the
    stored update [u]: the marker is followed by a payload that decodes
    to an object of type [message.part.updated] whose [properties.part]
    holds usable [messageID] and [id]. *)
Definition part_update_event (json_loads : string -> result pyval)
    (line : string) (m p : pyval) (u : update) : Prop :=
  exists payload data props part,
    sse_search line = Some payload /\
    json_loads payload = Ok (PDict data) /\
    dict_get "type" data = Some (PStr part_updated) /\
    dict_get "properties" data = Some (PDict props) /\
    dict_get "part" props = Some (PDict part) /\
    dict_get "messageID" part = Some m /\
    dict_get "id" part = Some p /\
    usable_key m = true /\ usable_key p = true /\
    u = {| text := get_default (PStr "") (dict_get "text" part);
           type := get_default PNone (dict_get "type" part);
           full_data := PDict part |}.

(** The string of a [str] value. *)
Definition str_of (v : pyval) : string :=
  match v with
  | PStr s => s
  | _ => ""
  end.

Definition texts_of (updates : list update) : list string :=
  map (fun u => str_of (text u)) updates.

(** The accumulators after the pair (previous, current) at update
    number [n] has been compared. *)
Definition after_pair (mid pid : pyval) (n : nat) (previous current : string)
    (st : scan_state) : scan_state :=
  {| erasure_found := erasure_found st || violates previous current;
     prefix_changes := prefix_changes st ++ pair_findings mid pid n previous current |}.

(** The accumulators after all of [pairs] have been compared. *)
Definition after_pairs (mid pid : pyval) (pairs : list (nat * (string * string)))
    (st : scan_state) : scan_state :=
  {| erasure_found :=
       erasure_found st || existsb (fun q => violates (fst (snd q)) (snd (snd q))) pairs;
     prefix_changes :=
       prefix_changes st ++
       flat_map (fun q => pair_findings mid pid (fst q) (fst (snd q)) (snd (snd q))) pairs |}.

(** [st'] comes from [st] by a part of the scan in which [v] tells
    whether a pair violated: the flag is raised exactly by a violation,
    and the entries added are sound and imply the flag. *)
Definition extends (v : bool) (st st' : scan_state) : Prop :=
  erasure_found st' = erasure_found st || v /\
  exists added,
    prefix_changes st' = prefix_changes st ++ added /\
    Forall finding_ok added /\
    (added <> [] -> erasure_found st' = true).

(** [c] occurs in [s]. *)
Fixpoint occurs (c : ascii) (s : string) : bool :=
  match s with
  | EmptyString => false
  | String d r => Ascii.eqb d c || occurs c r
  end.

(** A line of another event type, with [properties] that are no
    object. *)
Definition other_event_line : string :=
  (dq "12:00:04 DEBUG SSE line: data: {'type':'session.idle','properties':7}" ++ eol)%string.

(** A part update with a text and no [messageID]. *)
Definition no_id_line : string :=
  (dq "12:00:05 DEBUG SSE line: data: {'type':'message.part.updated','properties':{'part':{'id':'p1','text':'lost'}}}"
   ++ eol)%string.

(** The updates that the lines of a log carry for the part with the
    keys [m] and [p], in the order of the lines. *)
Definition event_updates (json_loads : string -> result pyval) (m p : pyval)
    (lines : list string) : list update :=
  flat_map
    (fun line =>
       match project_line json_loads line with
       | Ok (Some (km, kp, u)) => if key_eqb km m && key_eqb kp p then [u] else []
       | _ => []
       end)
    lines.

(** No key of the list is equal, as a dictionary key, to a later one. *)
Fixpoint keys_distinct (ks : list pyval) : bool :=
  match ks with
  | [] => true
  | k :: rest => negb (existsb (fun k' => key_eqb k k') rest) && keys_distinct rest
  end.

(** A part of [message_parts] has a usable key and at least one
    update. *)
Definition part_ok (p : pyval * list update) : bool :=
  usable_key (fst p) && negb (Nat.eqb (List.length (snd p)) 0).

(** A message of [message_parts] has a usable key and at least one
    part, and its parts are in order and have distinct keys. *)
Definition message_ok (m : pyval * part_table) : bool :=
  usable_key (fst m) && negb (Nat.eqb (List.length (snd m)) 0)
  && keys_distinct (map fst (snd m)) && forallb part_ok (snd m).

Definition table_ok (mp : message_table) : bool :=
  keys_distinct (map fst mp) && forallb message_ok mp.

(** A decoder that fails with the exception [e] on every payload. *)
Definition failing_decode (e : exn) (payload : string) : result pyval := Raise e.

(** A part update whose [properties] are a string. *)
Definition bad_properties_line : string :=
  (dq "12:00:06 DEBUG SSE line: data: {'type':'message.part.updated','properties':'none'}"
   ++ eol)%string.

(** A part update whose [messageID] is a list. *)
Definition list_id_line : string :=
  (dq "12:00:07 DEBUG SSE line: data: {'type':'message.part.updated','properties':{'part':{'messageID':['m1'],'id':'p1','text':'Hi'}}}"
   ++ eol)%string.

(** A part update whose [text] is a number. *)
Definition number_text_line : string :=
  (dq "12:00:08 DEBUG SSE line: data: {'type':'message.part.updated','properties':{'part':{'messageID':'m1','id':'p1','text':5}}}"
   ++ eol)%string.

(** [v] is an object. *)
Definition is_dict (v : pyval) : bool :=
  match v with
  | PDict _ => true
  | _ => false
  end.

(** The entries of one part and of a whole table: those of the
    adjacent pairs of each history, message by message and part by part
    in the order of the table. *)
Definition part_findings (mid : pyval) (part : pyval * list update) : list finding :=
  flat_map (fun q => pair_findings mid (fst part) (fst q) (fst (snd q)) (snd (snd q)))
    (adjacent_pairs 0 "" (texts_of (snd part))).

Definition table_findings (mp : message_table) : list finding :=
  flat_map (fun m => flat_map (part_findings (fst m)) (snd m)) mp.

(** All texts of the table are strings. *)
Definition str_table (mp : message_table) : bool :=
  forallb (fun m => forallb (fun p => str_texts (snd p)) (snd m)) mp.

(** The shape of the input: an identifier is a string or absent, the
    text is a string or absent, [properties] and [properties.part] are
    objects or absent. *)
Definition id_shape_ok (o : option pyval) : bool :=
  match o with
  | None => true
  | Some v => is_str v
  end.

Definition part_shape_ok (part : pyval) : bool :=
  match part with
  | PDict p =>
      id_shape_ok (dict_get "messageID" p) && id_shape_ok (dict_get "id" p)
      && is_str (get_default (PStr "") (dict_get "text" p))
  | _ => false
  end.

Definition data_shape_ok (data : pyval) : bool :=
  match data with
  | PDict d =>
      if is_part_updated (get_default PNone (dict_get "type" d)) then
        match get_default (PDict []) (dict_get "properties" d) with
        | PDict props => part_shape_ok (get_default (PDict []) (dict_get "part" props))
        | _ => false
        end
      else true
  | _ => false
  end.

(** A line that cannot end the run: it has no match, or its payload
    is rejected with [JSONDecodeError], or it decodes to an object that
    is no part update or is one of the shape above. *)
Definition line_shape_ok (json_loads : string -> result pyval) (line : string) : bool :=
  match sse_search line with
  | None => true
  | Some payload =>
      match json_loads payload with
      | Ok data => data_shape_ok data
      | Raise JSONDecodeError => true
      | Raise _ => false
      end
  end.

(** [v] has a length: it is a string, a list or an object. *)
Definition sized (v : pyval) : bool :=
  match v with
  | PStr _ | PList _ | PDict _ => true
  | _ => false
  end.

(** The keys and the texts of a table, without the other fields of
    the updates. *)
Definition table_texts (mp : message_table) : list (pyval * list (pyval * list pyval)) :=
  map (fun m => (fst m, map (fun p => (fst p, map text (snd p))) (snd m))) mp.

(** ** The caller of [analyze_sse_logs] (lines 120-134) *)

(** Line 123: the log file named on the command line, or
    [server.log]. *)
Definition log_file (argv : list string) : string :=
  match argv with
  | _ :: file :: _ => file
  | _ => "server.log"
  end.

(** Lines 130-134: the messages listed by the analysis of duplicate
    part identifiers, each with the number and the list of part
    identifiers printed for it. *)
Definition duplicate_part_ids (mp : message_table) : list (pyval * nat * list pyval) :=
  flat_map
    (fun m =>
       if (1 <? List.length (snd m))%nat
       then [(fst m, List.length (snd m), map fst (snd m))]
       else [])
    mp.

(** * fibonacci.py *)

(** [fibonacci(n)] on an integer, with [depth] the number of frames
    the interpreter still allows: a call that finds none left raises
    [RecursionError]. *)
Fixpoint fibonacci (depth : nat) (n : Z) : result Z :=
  match depth with
  | 0 => Raise RecursionError
  | S depth' =>
      if (n <=? 1)%Z then Ok n
      else
        a <- fibonacci depth' (n - 1) ;;
        b <- fibonacci depth' (n - 2) ;;
        Ok (a + b)%Z
  end.

(** The Fibonacci numbers by iteration: [fib_pair k] is the pair of the
    [k]-th and the next one, starting from 0 and 1. *)
Fixpoint fib_pair (k : nat) : Z * Z :=
  match k with
  | 0 => (0, 1)%Z
  | S k' => let ab := fib_pair k' in (snd ab, fst ab + snd ab)%Z
  end.

Definition fib_number (k : nat) : Z := fst (fib_pair k).

(** [ks] with the key [k] put at its end, unless a key of [ks] is
    equal to it. *)
Definition add_key (ks : list pyval) (k : pyval) : list pyval :=
  if existsb (fun k' => key_eqb k' k) ks then ks else ks ++ [k].

(** The keys of a sequence in the order of their first appearance,
    each once. *)
Definition first_seen (ks : list pyval) : list pyval := fold_left add_key ks [].

(** The part identifiers of the part updates that the lines of a log
    carry for the message [m], line by line. *)
Definition event_part_keys (json_loads : string -> result pyval) (m : pyval)
    (lines : list string) : list pyval :=
  flat_map
    (fun line =>
       match project_line json_loads line with
       | Ok (Some (km, kp, u)) => if key_eqb km m then [kp] else []
       | _ => []
       end)
    lines.

(** The part identifiers stored for the message with the string key
    [m], in the order of the table. *)
Definition part_keys (mp : message_table) (m : string) : list pyval :=
  match dd_lookup (PStr m) mp with
  | Some parts => map fst parts
  | None => []
  end.

(** * Properties *)

(** ** Strings and prefixes *)

Lemma append_empty_r (s : string) : (s ++ "")%string = s.
Proof. induction s as [|c s IH]; simpl; [reflexivity | now rewrite IH]. Qed.

Lemma append_assoc (a b c : string) : ((a ++ b) ++ c)%string = (a ++ b ++ c)%string.
Proof. induction a as [|x a IH]; simpl; [reflexivity | now rewrite IH]. Qed.

Lemma length_append (a b : string) :
  String.length (a ++ b) = String.length a + String.length b.
Proof. induction a as [|x a IH]; simpl; [reflexivity | now rewrite IH]. Qed.

Lemma prefix_cons (x y : ascii) (a b : string) :
  String.prefix (String x a) (String y b) = Ascii.eqb x y && String.prefix a b.
Proof.
  simpl. destruct (ascii_dec x y) as [->|Hne].
  - now rewrite Ascii.eqb_refl.
  - apply Ascii.eqb_neq in Hne. now rewrite Hne.
Qed.

Lemma prefix_empty_l (s : string) : String.prefix "" s = true.
Proof. destruct s; reflexivity. Qed.

Lemma prefix_refl (s : string) : String.prefix s s = true.
Proof.
  induction s as [|c s IH]; [reflexivity|].
  rewrite prefix_cons, Ascii.eqb_refl. exact IH.
Qed.

Lemma prefix_iff_append (s t : string) :
  String.prefix s t = true <-> exists r, t = (s ++ r)%string.
Proof.
  revert t. induction s as [|c s IH]; intros t.
  - rewrite prefix_empty_l. split; [intros _; now exists t | reflexivity].
  - destruct t as [|d t].
    + simpl. split; [discriminate | intros [r Hr]; discriminate].
    + rewrite prefix_cons, andb_true_iff, Ascii.eqb_eq, IH. split.
      * intros [-> [r ->]]. now exists r.
      * intros [r Hr]. simpl in Hr. injection Hr as -> ->. split; [reflexivity | now exists r].
Qed.

Lemma prefix_length (s t : string) :
  String.prefix s t = true -> String.length s <= String.length t.
Proof.
  intros H. apply prefix_iff_append in H as [r ->]. rewrite length_append. lia.
Qed.

Lemma prefix_same_length (s t : string) :
  String.prefix s t = true -> String.length s = String.length t -> s = t.
Proof.
  revert t. induction s as [|c s IH]; intros [|d t]; simpl; try discriminate; try reflexivity.
  destruct (ascii_dec c d) as [->|]; [|discriminate].
  intros H Hl. f_equal. apply IH; [exact H | lia].
Qed.

Lemma eqb_empty_false (s : string) : (s =? "") = false <-> s <> "".
Proof. apply String.eqb_neq. Qed.

(** ** The longest common prefix *)

Lemma lcp_prefix_l (a b : string) : String.prefix (lcp a b) a = true.
Proof.
  revert b. induction a as [|x a IH]; intros [|y b]; simpl lcp; try apply prefix_empty_l.
  destruct (Ascii.eqb x y); [|apply prefix_empty_l].
  rewrite prefix_cons, Ascii.eqb_refl. apply IH.
Qed.

Lemma lcp_prefix_r (a b : string) : String.prefix (lcp a b) b = true.
Proof.
  revert b. induction a as [|x a IH]; intros [|y b]; simpl lcp; try apply prefix_empty_l.
  destruct (Ascii.eqb x y) eqn:E; [|apply prefix_empty_l].
  rewrite prefix_cons, E. apply IH.
Qed.

Lemma lcp_greatest (a b s : string) :
  String.prefix s a = true -> String.prefix s b = true ->
  String.prefix s (lcp a b) = true.
Proof.
  revert a b. induction s as [|c s IH]; intros a b Ha Hb; [apply prefix_empty_l|].
  destruct a as [|x a]; [discriminate|]. destruct b as [|y b]; [discriminate|].
  rewrite prefix_cons, andb_true_iff, Ascii.eqb_eq in Ha, Hb.
  destruct Ha as [-> Ha], Hb as [<- Hb]. simpl lcp.
  rewrite Ascii.eqb_refl, prefix_cons, Ascii.eqb_refl. now apply IH.
Qed.

Lemma lcp_same (s : string) : lcp s s = s.
Proof.
  induction s as [|c s IH]; simpl; [reflexivity|].
  now rewrite Ascii.eqb_refl, IH.
Qed.

Lemma lcp_of_prefix (a b : string) : String.prefix a b = true -> lcp a b = a.
Proof.
  revert b. induction a as [|x a IH]; intros [|y b]; simpl lcp; try reflexivity; try discriminate.
  rewrite prefix_cons, andb_true_iff. intros [-> H]. now rewrite IH.
Qed.

Lemma get_after (pre : string) (c : ascii) (rest : string) :
  String.get (String.length pre) (pre ++ String c rest) = Some c.
Proof. induction pre as [|x pre IH]; simpl; [reflexivity | exact IH]. Qed.

Lemma append_snoc (pre : string) (c : ascii) (rest : string) :
  ((pre ++ String c "") ++ rest)%string = (pre ++ String c rest)%string.
Proof. now rewrite append_assoc. Qed.

(** The loop of lines 75-79, started at index [length pre] after the
    common part [pre], adds the longest common prefix of the rests. *)
Lemma common_prefix_loop_spec (p t pre acc : string) :
  common_prefix_loop
    (seq (String.length pre) (Nat.min (String.length p) (String.length t)))
    (pre ++ p) (pre ++ t) acc
  = Ok (acc ++ lcp p t)%string.
Proof.
  revert t pre acc. induction p as [|x p IH]; intros t pre acc.
  - simpl. now rewrite append_empty_r.
  - destruct t as [|y t].
    + simpl. now rewrite append_empty_r.
    + cbn [String.length Nat.min seq common_prefix_loop lcp].
      unfold py_index. rewrite !get_after. cbn [bind].
      destruct (Ascii.eqb x y) eqn:E.
      * apply Ascii.eqb_eq in E. subst y.
        rewrite <- (append_snoc pre x p), <- (append_snoc pre x t).
        replace (S (String.length pre)) with (String.length (pre ++ String x "")).
        -- rewrite IH. now rewrite append_snoc.
        -- rewrite length_append. simpl. lia.
      * now rewrite append_empty_r.
Qed.

Lemma scan_common_prefix_lcp (p t : string) :
  scan_common_prefix p t = Ok (lcp p t).
Proof.
  unfold scan_common_prefix.
  exact (common_prefix_loop_spec p t "" "").
Qed.

(** C5: for every two strings the scan of lines 74-79 returns, without
    an exception, the longest string that is a prefix of both: it is a
    prefix of each, every common prefix is a prefix of it (so none is
    longer), it is the run of equal characters from the left up to the
    first mismatch or the end of the shorter string, and on two equal
    strings it is the string itself. *)
Theorem common_prefix_is_longest (previous_text current_text : string) :
  exists cp,
    scan_common_prefix previous_text current_text = Ok cp /\
    String.prefix cp previous_text = true /\
    String.prefix cp current_text = true /\
    (forall s, String.prefix s previous_text = true ->
               String.prefix s current_text = true ->
               String.prefix s cp = true /\ String.length s <= String.length cp) /\
    cp = lcp previous_text current_text /\
    scan_common_prefix previous_text previous_text = Ok previous_text.
Proof.
  exists (lcp previous_text current_text).
  rewrite !scan_common_prefix_lcp, lcp_same.
  repeat split.
  - apply lcp_prefix_l.
  - apply lcp_prefix_r.
  - now apply lcp_greatest.
  - apply prefix_length. now apply lcp_greatest.
Qed.

(** ** One step of the scan on strings *)

Lemma violates_empty_l (t : string) : violates "" t = false.
Proof. reflexivity. Qed.

Lemma violates_empty_r (p : string) : violates p "" = false.
Proof. unfold violates. simpl. now rewrite andb_false_r. Qed.

Lemma violates_same (s : string) : violates s s = false.
Proof. unfold violates. rewrite prefix_refl. simpl. now rewrite andb_false_r. Qed.

Lemma violates_true_iff (p t : string) :
  violates p t = true <-> p <> "" /\ t <> "" /\ String.prefix p t = false.
Proof.
  unfold violates. rewrite !andb_true_iff, !negb_true_iff, !eqb_empty_false. tauto.
Qed.

Lemma after_pair_unchanged (mid pid : pyval) (n : nat) (p t : string) (st : scan_state) :
  violates p t = false -> after_pair mid pid n p t st = st.
Proof.
  intros H. unfold after_pair, pair_findings. rewrite H. simpl.
  rewrite orb_false_r, app_nil_r. now destruct st.
Qed.

Lemma check_update_str (mid pid : pyval) (i : nat) (p t : string) (st : scan_state) :
  check_update mid pid i (PStr p) (PStr t) st = Ok (after_pair mid pid (i + 1) p t st).
Proof.
  unfold check_update. cbn [truthy].
  destruct (negb (p =? "") && negb (t =? "")) eqn:E.
  - destruct (negb (String.prefix p t)) eqn:F.
    + rewrite scan_common_prefix_lcp. cbn [bind].
      unfold after_pair, pair_findings, violates. rewrite E, F. cbn [andb].
      rewrite orb_true_r.
      destruct (negb (lcp p t =? "")); [reflexivity | now rewrite app_nil_r].
    + rewrite after_pair_unchanged; [reflexivity|].
      unfold violates. now rewrite E, F.
  - rewrite after_pair_unchanged; [reflexivity|].
    unfold violates. now rewrite E.
Qed.

Lemma show_text_str (t : string) : show_text (PStr t) = Ok tt.
Proof.
  unfold show_text. destruct (truthy (PStr t)); [|reflexivity].
  cbn [py_len bind py_slice]. now destruct (String.length t <=? 60)%nat.
Qed.

Lemma scan_update_str (mid pid : pyval) (i : nat) (p t : string) (st : scan_state)
    (u : update) :
  text u = PStr t ->
  scan_update mid pid i (PStr p) st u = Ok (after_pair mid pid (i + 1) p t st).
Proof.
  intros H. unfold scan_update. rewrite H. cbn [py_len bind].
  rewrite check_update_str. cbn [bind]. now rewrite show_text_str.
Qed.

(** ** The scan of a history *)

Lemma last_shift {A : Type} (a d : A) (l : list A) : last (a :: l) d = last l a.
Proof.
  revert a d. induction l as [|b l IH]; intros a d; [reflexivity|].
  change (last (a :: b :: l) d) with (last (b :: l) d).
  now rewrite !IH.
Qed.

Lemma scan_updates_app (mid pid : pyval) (us1 us2 : list update) (i : nat)
    (prev_text : pyval) (st : scan_state) :
  scan_updates mid pid i prev_text st (us1 ++ us2) =
  (st1 <- scan_updates mid pid i prev_text st us1 ;;
   scan_updates mid pid (i + List.length us1) (last_text prev_text us1) st1 us2).
Proof.
  revert i prev_text st. induction us1 as [|u us1 IH]; intros i prev_text st.
  - simpl. now rewrite Nat.add_0_r.
  - cbn [app scan_updates].
    destruct (scan_update mid pid i prev_text st u) as [st'|e]; cbn [bind]; [|reflexivity].
    rewrite IH. cbn [List.length].
    replace (S i + List.length us1) with (i + S (List.length us1)) by lia.
    unfold last_text. cbn [map]. now rewrite last_shift.
Qed.

Lemma adjacent_pairs_nil (i : nat) (p : string) : adjacent_pairs i p [] = [].
Proof. reflexivity. Qed.

Lemma adjacent_pairs_cons (i : nat) (p t : string) (texts : list string) :
  adjacent_pairs i p (t :: texts) = (i + 1, (p, t)) :: adjacent_pairs (S i) t texts.
Proof. reflexivity. Qed.

Lemma str_texts_cons (u : update) (us : list update) :
  str_texts (u :: us) = true ->
  text u = PStr (str_of (text u)) /\ str_texts us = true.
Proof.
  unfold str_texts. cbn [forallb]. rewrite andb_true_iff. intros [H1 H2].
  split; [|exact H2]. now destruct (text u).
Qed.

Lemma str_texts_app (us1 us2 : list update) :
  str_texts (us1 ++ us2) = str_texts us1 && str_texts us2.
Proof. apply forallb_app. Qed.

Lemma after_pairs_cons (mid pid : pyval) (q : nat * (string * string))
    (pairs : list (nat * (string * string))) (st : scan_state) :
  after_pairs mid pid pairs (after_pair mid pid (fst q) (fst (snd q)) (snd (snd q)) st)
  = after_pairs mid pid (q :: pairs) st.
Proof.
  unfold after_pairs, after_pair. cbn [erasure_found prefix_changes existsb flat_map].
  now rewrite orb_assoc, app_assoc.
Qed.

(** On a history of strings the scan completes, and its accumulators
    are those of the adjacent pairs. *)
Lemma scan_updates_str (mid pid : pyval) (us : list update) (i : nat) (p : string)
    (st : scan_state) :
  str_texts us = true ->
  scan_updates mid pid i (PStr p) st us
  = Ok (after_pairs mid pid (adjacent_pairs i p (texts_of us)) st).
Proof.
  revert i p st. induction us as [|u us IH]; intros i p st H.
  - simpl. unfold after_pairs. simpl. rewrite orb_false_r, app_nil_r. now destruct st.
  - apply str_texts_cons in H as [Ht Hs].
    cbn [scan_updates]. rewrite (scan_update_str mid pid i p st u Ht). cbn [bind].
    rewrite Ht at 1. rewrite (IH _ _ _ Hs).
    cbn [texts_of map]. rewrite adjacent_pairs_cons.
    now rewrite <- after_pairs_cons.
Qed.

Lemma texts_of_app (us1 us2 : list update) :
  texts_of (us1 ++ us2) = texts_of us1 ++ texts_of us2.
Proof. apply map_app. Qed.

Lemma last_text_str (p : string) (us : list update) :
  str_texts us = true ->
  last_text (PStr p) us = PStr (last (texts_of us) p).
Proof.
  revert p. induction us as [|u us IH]; intros p H; [reflexivity|].
  apply str_texts_cons in H as [Ht Hs].
  unfold last_text in *. cbn [map texts_of]. rewrite !last_shift.
  rewrite Ht at 1. fold (texts_of us). now apply IH.
Qed.

(** The scan of a history of strings extended by one update. *)
Lemma scan_updates_snoc (mid pid : pyval) (us : list update) (u : update) (i : nat)
    (p : string) (st : scan_state) :
  str_texts (us ++ [u]) = true ->
  scan_updates mid pid i (PStr p) st (us ++ [u])
  = Ok (after_pair mid pid (i + List.length us + 1) (last (texts_of us) p)
          (str_of (text u))
          (after_pairs mid pid (adjacent_pairs i p (texts_of us)) st)).
Proof.
  intros H. rewrite str_texts_app, andb_true_iff in H. destruct H as [H1 H2].
  apply str_texts_cons in H2 as [Hu _].
  rewrite scan_updates_app, (scan_updates_str mid pid us i p st H1). cbn [bind].
  rewrite (last_text_str p us H1). cbn [scan_updates].
  rewrite (scan_update_str mid pid _ _ _ u Hu). reflexivity.
Qed.

(** C4: on a history of strings a violation neither ends nor aborts the
    scan.  After any first part [us1] of the history, whatever it held,
    the scan goes on with the rest [us2] from the text of the last
    update seen, and the result for the whole history is that of the
    adjacent pairs: every text is compared with the text immediately
    before it, and each violating pair sets the flag and adds its
    entry. *)
Theorem scan_compares_with_preceding_text (mid pid : pyval) (us1 us2 : list update)
    (i : nat) (p : string) (st : scan_state) :
  str_texts (us1 ++ us2) = true ->
  exists st1,
    scan_updates mid pid i (PStr p) st us1 = Ok st1 /\
    scan_updates mid pid i (PStr p) st (us1 ++ us2)
      = scan_updates mid pid (i + List.length us1) (PStr (last (texts_of us1) p)) st1 us2 /\
    scan_updates mid pid i (PStr p) st (us1 ++ us2)
      = Ok (after_pairs mid pid (adjacent_pairs i p (texts_of (us1 ++ us2))) st).
Proof.
  intros H. pose proof H as H'. rewrite str_texts_app, andb_true_iff in H'.
  destruct H' as [H1 H2].
  exists (after_pairs mid pid (adjacent_pairs i p (texts_of us1)) st).
  split; [now apply scan_updates_str|]. split.
  - rewrite scan_updates_app, (scan_updates_str mid pid us1 i p st H1). cbn [bind].
    now rewrite (last_text_str p us1 H1).
  - now apply scan_updates_str.
Qed.

(** ** The entries of one pair *)

Lemma pair_findings_num (mid pid : pyval) (n : nat) (a b : string) (f : finding) :
  In f (pair_findings mid pid n a b) -> update_num f = n.
Proof.
  unfold pair_findings.
  destruct (violates a b && negb (lcp a b =? "")); simpl; [|tauto].
  intros [<-|[]]. reflexivity.
Qed.

Lemma filter_none {A : Type} (f : A -> bool) (l : list A) :
  (forall x, In x l -> f x = false) -> filter f l = [].
Proof.
  induction l as [|a l IH]; intros H; [reflexivity|].
  simpl. rewrite (H a (or_introl eq_refl)). apply IH. intros x Hx. apply H. now right.
Qed.

Lemma filter_all {A : Type} (f : A -> bool) (l : list A) :
  (forall x, In x l -> f x = true) -> filter f l = l.
Proof.
  induction l as [|a l IH]; intros H; [reflexivity|].
  simpl. rewrite (H a (or_introl eq_refl)). f_equal. apply IH. intros x Hx. apply H. now right.
Qed.

Lemma later_findings_num (mid pid : pyval) (texts : list string) (i : nat) (p : string)
    (f : finding) :
  In f (flat_map (fun q => pair_findings mid pid (fst q) (fst (snd q)) (snd (snd q)))
          (adjacent_pairs i p texts)) ->
  i + 1 <= update_num f.
Proof.
  revert i p. induction texts as [|t texts IH]; intros i p; [intros []|].
  rewrite adjacent_pairs_cons. cbn [flat_map fst snd]. rewrite in_app_iff.
  intros [H|H].
  - apply pair_findings_num in H. lia.
  - apply IH in H. lia.
Qed.

(** The entries with the update number of a pair are the entries of
    that pair. *)
Lemma findings_of_pair (mid pid : pyval) (texts : list string) (i : nat) (p : string)
    (k : nat) (a b : string) :
  nth_error (p :: texts) k = Some a ->
  nth_error texts k = Some b ->
  filter (fun f => update_num f =? i + k + 1)%nat
    (flat_map (fun q => pair_findings mid pid (fst q) (fst (snd q)) (snd (snd q)))
       (adjacent_pairs i p texts))
  = pair_findings mid pid (i + k + 1) a b.
Proof.
  revert i p k. induction texts as [|t texts IH]; intros i p k Ha Hb.
  - destruct k; discriminate.
  - rewrite adjacent_pairs_cons. cbn [flat_map fst snd]. rewrite filter_app.
    destruct k as [|k].
    + injection Ha as <-. injection Hb as <-. rewrite Nat.add_0_r.
      rewrite filter_all, filter_none; [apply app_nil_r | |].
      * intros f Hf. apply later_findings_num in Hf. apply Nat.eqb_neq. lia.
      * intros f Hf. apply pair_findings_num in Hf. apply Nat.eqb_eq. lia.
    + cbn [nth_error] in Ha, Hb. rewrite filter_none.
      * replace (i + S k + 1) with (S i + k + 1) by lia. now apply IH.
      * intros f Hf. apply pair_findings_num in Hf. apply Nat.eqb_neq. lia.
Qed.

Lemma pair_in_adjacent (texts : list string) (i : nat) (p : string) (k : nat)
    (a b : string) :
  nth_error (p :: texts) k = Some a ->
  nth_error texts k = Some b ->
  In (i + k + 1, (a, b)) (adjacent_pairs i p texts).
Proof.
  revert i p k. induction texts as [|t texts IH]; intros i p k Ha Hb.
  - destruct k; discriminate.
  - rewrite adjacent_pairs_cons. destruct k as [|k].
    + injection Ha as <-. injection Hb as <-. left. now rewrite Nat.add_0_r.
    + right. replace (i + S k + 1) with (S i + k + 1) by lia. now apply IH.
Qed.

(** C1 (amended): on a history of strings, a pair of adjacent texts
    (A, B), both non-empty, where B does not start with A, sets the flag,
    and [prefix_changes] receives for it exactly one entry when A and B
    share a non-empty prefix, and no entry when they share none.  The
    entry has the update number of B and the longest common prefix. *)
Theorem violating_pair_entry (mid pid : pyval) (us : list update) (st : scan_state)
    (k : nat) (A B : string) :
  str_texts us = true ->
  nth_error (texts_of us) k = Some A ->
  nth_error (texts_of us) (S k) = Some B ->
  A <> "" -> B <> "" -> String.prefix A B = false ->
  exists st' added,
    scan_updates mid pid 0 (PStr "") st us = Ok st' /\
    erasure_found st' = true /\
    prefix_changes st' = prefix_changes st ++ added /\
    filter (fun f => update_num f =? k + 2)%nat added =
      (if lcp A B =? "" then []
       else [{| message_id := mid; part_id := pid; update_num := k + 2;
                prev := A; curr := B; common_prefix := lcp A B |}]).
Proof.
  intros Hs HA HB HA0 HB0 Hp.
  assert (Hv : violates A B = true) by now apply violates_true_iff.
  eexists. eexists. split; [now apply scan_updates_str|].
  cbn [after_pairs erasure_found prefix_changes]. split; [|split; [reflexivity|]].
  - apply orb_true_iff. right. apply existsb_exists.
    exists (0 + S k + 1, (A, B)). split; [|exact Hv].
    now apply pair_in_adjacent.
  - replace (k + 2) with (0 + S k + 1) by lia.
    rewrite (@findings_of_pair mid pid (texts_of us) 0 "" (S k) A B HA HB).
    unfold pair_findings. rewrite Hv. cbn [andb].
    now destruct (lcp A B =? "").
Qed.

(** ** Pairs that add nothing *)

(** An update whose comparison does not violate leaves both
    accumulators as the history before it left them. *)
Lemma scan_updates_snoc_quiet (mid pid : pyval) (us : list update) (u : update)
    (i : nat) (p : string) (st : scan_state) :
  str_texts (us ++ [u]) = true ->
  violates (last (texts_of us) p) (str_of (text u)) = false ->
  scan_updates mid pid i (PStr p) st (us ++ [u])
  = scan_updates mid pid i (PStr p) st us.
Proof.
  intros H Hv. rewrite (scan_updates_snoc mid pid us u i p st H).
  rewrite (after_pair_unchanged _ _ _ _ _ _ Hv).
  rewrite str_texts_app, andb_true_iff in H. destruct H as [H _].
  symmetry. now apply scan_updates_str.
Qed.

(** C7: on a history of strings, an update whose own text is empty, or
    whose preceding text (the text of the update before it, or the
    initial baseline of a part) is empty, adds no entry to
    [prefix_changes] and does not set the flag: the scan up to and
    with this update ends in the state the scan up to the update before
    it ends in. *)
Theorem empty_side_adds_nothing (mid pid : pyval) (us : list update) (u : update)
    (i : nat) (p : string) (st : scan_state) :
  str_texts (us ++ [u]) = true ->
  last_text (PStr p) us = PStr "" \/ text u = PStr "" ->
  exists st1,
    scan_updates mid pid i (PStr p) st us = Ok st1 /\
    scan_updates mid pid i (PStr p) st (us ++ [u]) = Ok st1.
Proof.
  intros H Hempty.
  pose proof H as H'. rewrite str_texts_app, andb_true_iff in H'. destruct H' as [H1 _].
  exists (after_pairs mid pid (adjacent_pairs i p (texts_of us)) st).
  assert (Hv : violates (last (texts_of us) p) (str_of (text u)) = false).
  { destruct Hempty as [E|E].
    - rewrite (last_text_str p us H1) in E. injection E as ->. apply violates_empty_l.
    - rewrite E. apply violates_empty_r. }
  rewrite (scan_updates_snoc_quiet mid pid us u i p st H Hv).
  rewrite (scan_updates_str mid pid us i p st H1). auto.
Qed.

Lemma snoc2 {A : Type} (l : list A) (a b : A) : l ++ [a; b] = (l ++ [a]) ++ [b].
Proof. now rewrite <- app_assoc. Qed.

Lemma snoc3 {A : Type} (l : list A) (a b c : A) : l ++ [a; b; c] = ((l ++ [a]) ++ [b]) ++ [c].
Proof. now rewrite <- !app_assoc. Qed.

Lemma last_snoc {A : Type} (l : list A) (a d : A) : last (l ++ [a]) d = a.
Proof. apply last_last. Qed.

(** C10: on a history of strings that holds the consecutive texts
    A, the empty text, B, neither the empty update nor B adds an entry or
    sets the flag, whatever A and B are (also when both are non-empty and
    B does not start with A): the scan up to and with B ends in the
    state the scan up to and with A ends in, and the rest of the history
    is then compared from the baseline B. *)
Theorem empty_update_masks_divergence (mid pid : pyval) (us1 us2 : list update)
    (ua ue ub : update) (i : nat) (p : string) (st : scan_state) :
  str_texts (us1 ++ [ua; ue; ub] ++ us2) = true ->
  text ue = PStr "" ->
  exists st1,
    scan_updates mid pid i (PStr p) st (us1 ++ [ua]) = Ok st1 /\
    scan_updates mid pid i (PStr p) st (us1 ++ [ua; ue; ub]) = Ok st1 /\
    scan_updates mid pid i (PStr p) st (us1 ++ [ua; ue; ub] ++ us2)
      = scan_updates mid pid (i + List.length us1 + 3) (text ub) st1 us2.
Proof.
  intros H He.
  rewrite app_assoc, str_texts_app, andb_true_iff in H. destruct H as [H3 H2].
  pose proof H3 as H3'. rewrite snoc3 in H3'.
  pose proof H3' as Hb. rewrite str_texts_app, andb_true_iff in Hb. destruct Hb as [Hq Hub].
  pose proof Hq as Ha. rewrite str_texts_app, andb_true_iff in Ha. destruct Ha as [Ha _].
  apply str_texts_cons in Hub as [Hub _].
  assert (E1 : scan_updates mid pid i (PStr p) st (us1 ++ [ua; ue; ub])
               = scan_updates mid pid i (PStr p) st (us1 ++ [ua])).
  { rewrite snoc3.
    rewrite (scan_updates_snoc_quiet mid pid _ ub i p st H3').
    - apply (scan_updates_snoc_quiet mid pid _ ue i p st Hq).
      rewrite He. apply violates_empty_r.
    - rewrite texts_of_app. cbn [texts_of map]. rewrite last_snoc, He.
      apply violates_empty_l. }
  eexists. split; [now apply scan_updates_str|]. split.
  - rewrite E1. now apply scan_updates_str.
  - rewrite app_assoc, scan_updates_app, E1.
    rewrite (scan_updates_str mid pid _ i p st Ha). cbn [bind].
    rewrite length_app. cbn [List.length]. rewrite Nat.add_assoc.
    unfold last_text. rewrite map_app. cbn [map]. rewrite snoc3, last_snoc.
    reflexivity.
Qed.

(** ** The scan on arbitrary stored values *)

Lemma extends_refl (st : scan_state) : extends false st st.
Proof.
  split; [now rewrite orb_false_r|].
  exists []. rewrite app_nil_r.
  split; [reflexivity|]. split; [constructor | congruence].
Qed.

Lemma extends_trans (v1 v2 : bool) (st st1 st2 : scan_state) :
  extends v1 st st1 -> extends v2 st1 st2 -> extends (v1 || v2) st st2.
Proof.
  intros [F1 (a1 & P1 & O1 & N1)] [F2 (a2 & P2 & O2 & N2)]. split.
  - now rewrite F2, F1, orb_assoc.
  - exists (a1 ++ a2). split; [now rewrite P2, P1, app_assoc|].
    split; [apply Forall_app; now split|].
    intros Hne. destruct a2 as [|f a2].
    + rewrite app_nil_r in Hne. rewrite F2, (N1 Hne). reflexivity.
    + apply N2. discriminate.
Qed.

Lemma violating_needs_truthy (pv tv : pyval) :
  truthy pv && truthy tv = false -> violating pv tv = false.
Proof.
  destruct pv, tv; try reflexivity.
  cbn [truthy violating]. unfold violates. now intros ->.
Qed.

Lemma lcp_proper_of_violation (p t : string) :
  String.prefix p t = false -> proper_prefix (lcp p t) p.
Proof.
  intros F. split; [apply lcp_prefix_l|].
  intros E. pose proof (lcp_prefix_r p t) as H. rewrite E in H. congruence.
Qed.

Lemma check_update_extends (mid pid : pyval) (i : nat) (pv tv : pyval)
    (st st' : scan_state) :
  check_update mid pid i pv tv st = Ok st' -> extends (violating pv tv) st st'.
Proof.
  unfold check_update. destruct (truthy pv && truthy tv) eqn:E.
  - destruct tv as [| | | |t| |]; try discriminate.
    destruct pv as [| | | |p| |]; try discriminate.
    cbn [truthy] in E. cbn [violating]. unfold violates. rewrite E. cbn [andb].
    destruct (negb (String.prefix p t)) eqn:F.
    + rewrite scan_common_prefix_lcp. cbn [bind truthy]. intros [= <-].
      apply andb_true_iff in E as [Ep Et].
      apply negb_true_iff in Ep, Et, F. apply eqb_empty_false in Ep, Et.
      split; [cbn; now rewrite orb_true_r|]. cbn [prefix_changes erasure_found].
      destruct (negb (lcp p t =? "")) eqn:G.
      * eexists. split; [reflexivity|]. split; [|reflexivity].
        constructor; [|constructor].
        apply negb_true_iff, eqb_empty_false in G.
        unfold finding_ok. cbn. repeat split; auto.
        -- apply lcp_prefix_l.
        -- intros E. pose proof (lcp_prefix_r p t) as H. rewrite E in H. congruence.
        -- apply lcp_prefix_r.
      * exists []. rewrite app_nil_r.
        split; [reflexivity|]. split; [constructor | congruence].
    + intros [= <-]. apply extends_refl.
  - intros [= <-]. rewrite (violating_needs_truthy _ _ E). apply extends_refl.
Qed.

Lemma scan_update_extends (mid pid : pyval) (i : nat) (pv : pyval) (u : update)
    (st st' : scan_state) :
  scan_update mid pid i pv st u = Ok st' -> extends (violating pv (text u)) st st'.
Proof.
  unfold scan_update. destruct (py_len (text u)); cbn [bind]; [|discriminate].
  destruct (check_update mid pid i pv (text u) st) as [s|] eqn:E; cbn [bind]; [|discriminate].
  destruct (show_text (text u)); cbn [bind]; [|discriminate].
  intros [= <-]. now apply check_update_extends in E.
Qed.

Lemma scan_updates_extends (mid pid : pyval) (us : list update) (i : nat) (pv : pyval)
    (st st' : scan_state) :
  scan_updates mid pid i pv st us = Ok st' ->
  extends
    (existsb (fun ab => violating (fst ab) (snd ab))
       (combine (pv :: map text us) (map text us)))
    st st'.
Proof.
  revert i pv st. induction us as [|u us IH]; intros i pv st.
  - intros [= <-]. apply extends_refl.
  - cbn [scan_updates].
    destruct (scan_update mid pid i pv st u) as [s|] eqn:E; cbn [bind]; [|discriminate].
    intros H. apply scan_update_extends in E. apply IH in H.
    cbn [map combine existsb fst snd]. exact (extends_trans E H).
Qed.

Lemma scan_parts_extends (mid : pyval) (parts : part_table) (st st' : scan_state) :
  scan_parts mid st parts = Ok st' ->
  extends (existsb (fun p => part_violation (snd p)) parts) st st'.
Proof.
  revert st. induction parts as [|[pid us] parts IH]; intros st.
  - intros [= <-]. apply extends_refl.
  - cbn [scan_parts].
    destruct (scan_updates mid pid 0 (PStr "") st us) as [s|] eqn:E; cbn [bind]; [|discriminate].
    intros H. apply scan_updates_extends in E. apply IH in H.
    cbn [existsb snd]. exact (extends_trans E H).
Qed.

Lemma scan_messages_extends (mp : message_table) (st st' : scan_state) :
  scan_messages st mp = Ok st' -> extends (run_violation mp) st st'.
Proof.
  revert st. induction mp as [|[mid parts] mp IH]; intros st.
  - intros [= <-]. apply extends_refl.
  - cbn [scan_messages].
    destruct (scan_parts mid st parts) as [s|] eqn:E; cbn [bind]; [|discriminate].
    intros H. apply scan_parts_extends in E. apply IH in H.
    unfold run_violation. cbn [existsb snd]. exact (extends_trans E H).
Qed.

Lemma analyze_extends (json_loads : string -> result pyval) (lines : list string)
    (mp : message_table) (st : scan_state) :
  analyze_sse_logs json_loads lines = Ok (mp, st) ->
  extends (run_violation mp) initial_state st.
Proof.
  unfold analyze_sse_logs.
  destruct (read_log json_loads [] lines) as [mp'|]; cbn [bind]; [|discriminate].
  destruct (scan_messages initial_state mp') as [st'|] eqn:E; cbn [bind]; [|discriminate].
  intros [= <- <-]. now apply scan_messages_extends.
Qed.

(** C2 (amended): in every completed run, a non-empty [prefix_changes]
    implies that the flag is true, and the flag is true exactly when some
    adjacent pair of a part history violates (two non-empty texts, the
    later not starting with the earlier).  The flag can be true while
    [prefix_changes] is empty. *)
Theorem flag_tracks_violations (json_loads : string -> result pyval)
    (lines : list string) (mp : message_table) (st : scan_state) :
  analyze_sse_logs json_loads lines = Ok (mp, st) ->
  (prefix_changes st <> [] -> erasure_found st = true) /\
  erasure_found st = run_violation mp.
Proof.
  intros H. apply analyze_extends in H as [F (added & P & _ & N)].
  cbn in F, P. subst. split; [exact N | exact F].
Qed.

(** C9 (amended): in every completed run, every entry of
    [prefix_changes] has a non-empty previous text and a non-empty
    current text, the current text does not start with the previous one,
    and its common prefix is non-empty, is their longest common prefix,
    is a proper prefix of the previous text and a prefix of the current
    text (it may be the whole current text). *)
Theorem findings_are_sound (json_loads : string -> result pyval)
    (lines : list string) (mp : message_table) (st : scan_state) :
  analyze_sse_logs json_loads lines = Ok (mp, st) ->
  Forall finding_ok (prefix_changes st).
Proof.
  intros H. apply analyze_extends in H as [_ (added & P & O & _)].
  cbn in P. now rewrite P.
Qed.

(** ** The marker *)

Lemma strip_prefix_append (p s r : string) :
  strip_prefix p s = Some r -> s = (p ++ r)%string.
Proof.
  revert s. induction p as [|a p IH]; intros s; simpl.
  - now intros [= ->].
  - destruct s as [|b s]; [discriminate|].
    destruct (Ascii.eqb a b) eqn:E; [|discriminate].
    apply Ascii.eqb_eq in E. subst b. intros H. now rewrite (IH _ H).
Qed.

(** A match yields what follows an occurrence of the marker up to the
    end of the line, and this is not empty. *)
Lemma sse_search_some (line payload : string) :
  sse_search line = Some payload ->
  exists pre post,
    line = (pre ++ sse_marker ++ post)%string /\
    payload = dot_star post /\ payload <> "".
Proof.
  induction line as [|c line IH]; [discriminate|].
  cbn [sse_search].
  destruct (strip_prefix sse_marker (String c line)) as [tail|] eqn:E.
  - destruct (dot_star tail) as [|d rest] eqn:F.
    + intros H. destruct (IH H) as (pre & post & -> & Hp).
      now exists (String c pre), post.
    + intros [= <-]. apply strip_prefix_append in E.
      exists "", tail. rewrite F. repeat split; [exact E | discriminate].
  - intros H. destruct (IH H) as (pre & post & -> & Hp).
    now exists (String c pre), post.
Qed.

Lemma sse_search_marker (line payload : string) :
  sse_search line = Some payload -> contains_marker line.
Proof.
  intros H. apply sse_search_some in H as (pre & post & H & _).
  now exists pre, post.
Qed.

Lemma no_marker_no_match (line : string) :
  ~ contains_marker line -> sse_search line = None.
Proof.
  intros H. destruct (sse_search line) as [payload|] eqn:E; [|reflexivity].
  exfalso. apply H. now apply sse_search_marker in E.
Qed.

(** ** The store *)

Lemma key_eqb_refl (k : pyval) : hashable k = true -> key_eqb k k = true.
Proof.
  destruct k as [|b|z|f|s| |]; cbn; try reflexivity; try discriminate; intros _.
  - now destruct b.
  - apply Z.eqb_refl.
  - destruct f as [b|b| |b m e]; cbn; try reflexivity.
    + now destruct b.
    + unfold SFeqb, SFcompare.
      destruct b; rewrite Z.compare_refl;
        change (Pos.compare_cont Eq m m) with (Pos.compare m m);
        now rewrite Pos.compare_refl.
  - apply String.eqb_refl.
Qed.

Lemma dd_lookup_update {V : Type} (k : pyval) (f : V -> V) (default : V)
    (d : list (pyval * V)) :
  key_eqb k k = true ->
  dd_lookup k (dd_update k f default d)
  = Some (f (match dd_lookup k d with Some v => v | None => default end)).
Proof.
  intros Hk. induction d as [|[k' v] d IH]; cbn [dd_update dd_lookup].
  - now rewrite Hk.
  - destruct (key_eqb k' k) eqn:E; cbn [dd_lookup]; rewrite E; [reflexivity | exact IH].
Qed.

(** Line 39 on hashable keys: the update is put at the end of the
    history of its part. *)
Lemma append_update_history (mp : message_table) (m p : pyval) (u : update) :
  hashable m = true -> hashable p = true ->
  exists mp',
    append_update mp m p u = Ok mp' /\
    history mp' m p = history mp m p ++ [u].
Proof.
  intros Hm Hp. unfold append_update. rewrite Hm, Hp. cbn [negb].
  eexists. split; [reflexivity|].
  unfold history.
  rewrite (dd_lookup_update _ _ _ _ (key_eqb_refl _ Hm)).
  rewrite (dd_lookup_update _ _ _ _ (key_eqb_refl _ Hp)).
  destruct (dd_lookup m mp) as [parts|]; [|reflexivity].
  now destruct (dd_lookup p parts).
Qed.

Lemma snoc_neq {A : Type} (l : list A) (a : A) : l ++ [a] <> l.
Proof.
  intros H. apply (f_equal (@List.length A)) in H.
  rewrite length_app in H. simpl in H. lia.
Qed.

(** ** The projection of a line *)

Lemma usable_key_iff (v : pyval) :
  usable_key v = true <-> truthy v = true /\ hashable v = true.
Proof. unfold usable_key. apply andb_true_iff. Qed.

Lemma usable_key_str (s : string) : usable_key (PStr s) = true <-> s <> "".
Proof.
  unfold usable_key. cbn. rewrite andb_true_r, negb_true_iff. apply eqb_empty_false.
Qed.

Lemma truthy_default_none (o : option pyval) :
  truthy (get_default PNone o) = true ->
  exists v, o = Some v /\ truthy v = true.
Proof. destruct o as [v|]; [now exists v | discriminate]. Qed.

Lemma project_part_some (part m p : pyval) (u : update) :
  project_part part = Ok (Some (m, p, u)) <->
  exists d,
    part = PDict d /\
    dict_get "messageID" d = Some m /\ dict_get "id" d = Some p /\
    truthy m = true /\ truthy p = true /\
    u = {| text := get_default (PStr "") (dict_get "text" d);
           type := get_default PNone (dict_get "type" d);
           full_data := PDict d |}.
Proof.
  split.
  - destruct part as [| | | | | |d]; try discriminate.
    unfold project_part. cbn [py_get bind].
    destruct (truthy (get_default PNone (dict_get "messageID" d))
              && truthy (get_default PNone (dict_get "id" d))) eqn:E; [|discriminate].
    apply andb_true_iff in E as [E1 E2].
    apply truthy_default_none in E1 as (v1 & G1 & T1).
    apply truthy_default_none in E2 as (v2 & G2 & T2).
    rewrite G1, G2. cbn [get_default]. intros [= <- <- <-].
    exists d. auto 10.
  - intros (d & -> & G1 & G2 & T1 & T2 & ->).
    unfold project_part. cbn [py_get bind]. rewrite G1, G2. cbn [get_default].
    now rewrite T1, T2.
Qed.

Lemma is_part_updated_iff (v : pyval) :
  is_part_updated v = true <-> v = PStr part_updated.
Proof.
  destruct v; cbn; try (split; [discriminate | intros [=]]).
  rewrite String.eqb_eq. split; [now intros -> | now intros [= ->]].
Qed.

Lemma project_part_empty : project_part (PDict []) = Ok None.
Proof. reflexivity. Qed.

Lemma project_data_some (data m p : pyval) (u : update) :
  project_data data = Ok (Some (m, p, u)) <->
  exists d props part,
    data = PDict d /\
    dict_get "type" d = Some (PStr part_updated) /\
    dict_get "properties" d = Some (PDict props) /\
    dict_get "part" props = Some (PDict part) /\
    dict_get "messageID" part = Some m /\ dict_get "id" part = Some p /\
    truthy m = true /\ truthy p = true /\
    u = {| text := get_default (PStr "") (dict_get "text" part);
           type := get_default PNone (dict_get "type" part);
           full_data := PDict part |}.
Proof.
  split.
  - destruct data as [| | | | | |d]; try discriminate.
    unfold project_data. cbn [py_get bind].
    destruct (is_part_updated (get_default PNone (dict_get "type" d))) eqn:T; [|discriminate].
    apply is_part_updated_iff in T.
    destruct (dict_get "type" d) as [ty|] eqn:Gt; [|discriminate]. cbn in T. subst ty.
    destruct (dict_get "properties" d) as [props|] eqn:Gp; cbn [get_default].
    + destruct props as [| | | | | |pd]; try discriminate. cbn [py_get bind].
      destruct (dict_get "part" pd) as [part|] eqn:Gq; cbn [get_default].
      * intros H. apply project_part_some in H as (pt & -> & H).
        exists d, pd, pt. auto 10.
      * rewrite project_part_empty. discriminate.
    + cbn [py_get bind dict_get get_default]. rewrite project_part_empty. discriminate.
  - intros (d & props & part & -> & Gt & Gp & Gq & H).
    unfold project_data. cbn [py_get bind]. rewrite Gt, Gp. cbn [get_default].
    replace (is_part_updated (PStr part_updated)) with true by reflexivity.
    cbn [py_get bind]. rewrite Gq. cbn [get_default].
    apply project_part_some. exists part. tauto.
Qed.

Lemma project_data_not_dict (data : pyval) :
  (forall d, data <> PDict d) -> project_data data = Raise AttributeError.
Proof.
  intros H. destruct data; try reflexivity. now destruct (H d).
Qed.

Section ReaderFacts.

Variable json_loads : string -> result pyval.

Lemma project_line_some (line : string) (m p : pyval) (u : update) :
  project_line json_loads line = Ok (Some (m, p, u)) <->
  exists payload data,
    sse_search line = Some payload /\
    json_loads payload = Ok data /\
    project_data data = Ok (Some (m, p, u)).
Proof.
  unfold project_line. split.
  - destruct (sse_search line) as [payload|]; [|discriminate].
    destruct (json_loads payload) as [data|e] eqn:E.
    + intros H. now exists payload, data.
    + destruct e; discriminate.
  - intros (payload & data & -> & -> & H). exact H.
Qed.

Lemma event_iff_projection (line : string) (m p : pyval) (u : update) :
  part_update_event json_loads line m p u <->
  project_line json_loads line = Ok (Some (m, p, u)) /\
  hashable m = true /\ hashable p = true.
Proof.
  rewrite project_line_some. unfold part_update_event. split.
  - intros (payload & d & props & part & Hs & Hj & Gt & Gp & Gq & Gm & Gi & Um & Up & Hu).
    apply usable_key_iff in Um as [Tm Hm], Up as [Tp Hp].
    split; [|now split]. exists payload, (PDict d). split; [exact Hs|]. split; [exact Hj|].
    apply project_data_some. exists d, props, part. auto 10.
  - intros [(payload & data & Hs & Hj & H) [Hm Hp]].
    apply project_data_some in H
      as (d & props & part & -> & Gt & Gp & Gq & Gm & Gi & Tm & Tp & Hu).
    exists payload, d, props, part.
    repeat (split; [assumption|]).
    split; [now apply usable_key_iff|]. split; [now apply usable_key_iff | exact Hu].
Qed.

Lemma event_recorded (mp : message_table) (line : string) (m p : pyval) (u : update) :
  part_update_event json_loads line m p u ->
  exists mp',
    process_line json_loads mp line = Ok mp' /\
    history mp' m p = history mp m p ++ [u].
Proof.
  intros H. apply event_iff_projection in H as (H & Hm & Hp).
  unfold process_line. rewrite H. cbn [bind].
  now apply append_update_history.
Qed.

(** A payload that [json.loads] rejects with [JSONDecodeError] is
    passed over (lines 41-42). *)
Lemma undecodable_payload_skipped (mp : message_table) (line payload : string) :
  sse_search line = Some payload ->
  json_loads payload = Raise JSONDecodeError ->
  process_line json_loads mp line = Ok mp.
Proof.
  intros Hs Hj. unfold process_line, project_line. now rewrite Hs, Hj.
Qed.

Lemma read_log_app (mp : message_table) (l1 l2 : list string) :
  read_log json_loads mp (l1 ++ l2)
  = (mp' <- read_log json_loads mp l1 ;; read_log json_loads mp' l2).
Proof.
  revert mp. induction l1 as [|line l1 IH]; intros mp; [reflexivity|].
  cbn [app read_log].
  destruct (process_line json_loads mp line); cbn [bind]; [apply IH | reflexivity].
Qed.

(** C3 (what the code does where the claim fails): a line whose
    payload decodes to a value that is not an object is not passed
    over.  [data.get] raises [AttributeError], which line 41 does not
    catch, and the analysis of the whole log ends with it, whatever
    lines come before and after. *)
Theorem non_object_payload_aborts (before after : list string) (line payload : string)
    (data : pyval) (mp : message_table) :
  read_log json_loads [] before = Ok mp ->
  sse_search line = Some payload ->
  json_loads payload = Ok data ->
  (forall d, data <> PDict d) ->
  process_line json_loads mp line = Raise AttributeError /\
  analyze_sse_logs json_loads (before ++ line :: after) = Raise AttributeError.
Proof.
  intros Hb Hs Hj Hd.
  assert (E : process_line json_loads mp line = Raise AttributeError).
  { unfold process_line, project_line. rewrite Hs, Hj.
    now rewrite (project_data_not_dict Hd). }
  split; [exact E|].
  unfold analyze_sse_logs. rewrite read_log_app, Hb. cbn [bind read_log].
  now rewrite E.
Qed.

(** C8: two lines in a row that carry updates of the same part are
    both put into its history, the second after the first, so the
    history grows by two also when their texts are the same; and when
    the texts are the same string, the second update adds no entry and
    does not set the flag: the scan of the history with both ends in
    the state the scan of the history with the first alone ends in. *)
Theorem identical_updates_both_recorded (mp : message_table) (line1 line2 : string)
    (m p : pyval) (u1 u2 : update) :
  part_update_event json_loads line1 m p u1 ->
  part_update_event json_loads line2 m p u2 ->
  text u1 = text u2 ->
  exists mp2,
    read_log json_loads mp [line1; line2] = Ok mp2 /\
    history mp2 m p = history mp m p ++ [u1; u2] /\
    List.length (history mp2 m p) = List.length (history mp m p) + 2 /\
    (str_texts (history mp2 m p) = true ->
     forall mid pid st,
     exists st1,
       scan_updates mid pid 0 (PStr "") st (history mp m p ++ [u1]) = Ok st1 /\
       scan_updates mid pid 0 (PStr "") st (history mp2 m p) = Ok st1).
Proof.
  intros H1 H2 Ht.
  destruct (event_recorded mp H1) as (mp1 & P1 & E1).
  destruct (event_recorded mp1 H2) as (mp2 & P2 & E2).
  exists mp2. cbn [read_log]. rewrite P1. cbn [bind]. rewrite P2. cbn [bind].
  assert (E : history mp2 m p = history mp m p ++ [u1; u2])
    by now rewrite E2, E1, <- app_assoc.
  split; [reflexivity|]. split; [exact E|]. split.
  - rewrite E, length_app. reflexivity.
  - rewrite E. intros Hs mid pid st. rewrite snoc2 in Hs |- *.
    pose proof Hs as Hs'. rewrite str_texts_app, andb_true_iff in Hs'.
    destruct Hs' as [Hs1 _].
    eexists. split; [now apply scan_updates_str|].
    rewrite (scan_updates_snoc_quiet mid pid _ u2 0 "" st Hs).
    + now apply scan_updates_str.
    + rewrite texts_of_app. cbn [texts_of map]. rewrite last_snoc, Ht.
      apply violates_same.
Qed.

End ReaderFacts.

(** * The properties on concrete logs *)

Lemma event_line_event (m p t : string) :
  project_line json_decode (event_line m p t)
    = Ok (Some (PStr m, PStr p, event_update m p t)) ->
  m <> "" -> p <> "" ->
  part_update_event json_decode (event_line m p t) (PStr m) (PStr p) (event_update m p t).
Proof.
  intros H Hm Hp. apply event_iff_projection. now split.
Qed.

(** The scenarios of the specification that the code agrees with. *)

Example scenario_extension :
  analyze_sse_logs json_decode [event_line "m1" "p1" "Hel"; event_line "m1" "p1" "Hello"]
  = Ok ([(PStr "m1", [(PStr "p1", [event_update "m1" "p1" "Hel";
                                   event_update "m1" "p1" "Hello"])])],
        {| erasure_found := false; prefix_changes := [] |}).
Proof. vm_compute. reflexivity. Qed.

(** "Help" starts with "Hel": the update is an extension and nothing
    is recorded for it. *)
Example scenario_help :
  analyze_sse_logs json_decode [event_line "m1" "p1" "Hel"; event_line "m1" "p1" "Help"]
  = Ok ([(PStr "m1", [(PStr "p1", [event_update "m1" "p1" "Hel";
                                   event_update "m1" "p1" "Help"])])],
        {| erasure_found := false; prefix_changes := [] |}).
Proof. vm_compute. reflexivity. Qed.

Example scenario_unparsable :
  json_decode (dq "{'type':'message.part.upd") = Raise JSONDecodeError /\
  analyze_sse_logs json_decode [truncated_line; event_line "m1" "p1" "Hel"]
  = Ok ([(PStr "m1", [(PStr "p1", [event_update "m1" "p1" "Hel"])])], initial_state).
Proof. split; vm_compute; reflexivity. Qed.

Example scenario_empty_log (json_loads : string -> result pyval) :
  analyze_sse_logs json_loads [] = Ok ([], initial_state).
Proof. reflexivity. Qed.

(** C1, counterexample: the second scenario of the specification.  The
    history of part p1 is "Hel", "World": both texts are non-empty and
    "World" does not start with "Hel", yet [prefix_changes] stays empty,
    because the two texts share no prefix (line 81). *)
Lemma no_entry_without_shared_prefix :
  exists mp st,
    analyze_sse_logs json_decode
      [event_line "m1" "p1" "Hel"; event_line "m1" "p1" "World"] = Ok (mp, st) /\
    texts_of (history mp (PStr "m1") (PStr "p1")) = ["Hel"; "World"] /\
    "Hel" <> "" /\ "World" <> "" /\ String.prefix "Hel" "World" = false /\
    prefix_changes st = [] /\
    List.length (filter (fun f => update_num f =? 2)%nat (prefix_changes st)) <> 1.
Proof.
  eexists. eexists. split; [vm_compute; reflexivity|].
  repeat split; try discriminate; vm_compute; discriminate.
Qed.

Lemma violating_pair_entry_witness :
  exists st' added,
    scan_updates (PStr "m1") (PStr "p1") 0 (PStr "") initial_state
      [text_update "Hello"; text_update "Help"] = Ok st' /\
    erasure_found st' = true /\
    prefix_changes st' = prefix_changes initial_state ++ added /\
    filter (fun f => update_num f =? 0 + 2)%nat added =
      (if lcp "Hello" "Help" =? "" then []
       else [{| message_id := PStr "m1"; part_id := PStr "p1"; update_num := 0 + 2;
                prev := "Hello"; curr := "Help";
                common_prefix := lcp "Hello" "Help" |}]).
Proof.
  apply (@violating_pair_entry (PStr "m1") (PStr "p1")
           [text_update "Hello"; text_update "Help"] initial_state 0 "Hello" "Help");
    try reflexivity; discriminate.
Defined.

(** C2, counterexample: a run in which the flag is true while
    [prefix_changes] is empty. *)
Lemma flag_without_entries :
  exists mp st,
    analyze_sse_logs json_decode
      [event_line "m7" "p1" "abc"; event_line "m7" "p1" "xyz"] = Ok (mp, st) /\
    erasure_found st = true /\ prefix_changes st = [] /\
    ~ (erasure_found st = true <-> prefix_changes st <> []).
Proof.
  eexists. eexists. split; [vm_compute; reflexivity|].
  cbn [erasure_found prefix_changes]. repeat split.
  intros [H _]. now apply H.
Qed.

Lemma flag_tracks_violations_witness :
  exists mp st,
    analyze_sse_logs json_decode
      [event_line "m1" "p1" "Hello"; event_line "m1" "p1" "Help"] = Ok (mp, st) /\
    (prefix_changes st <> [] -> erasure_found st = true) /\
    erasure_found st = run_violation mp.
Proof.
  eexists. eexists. split; [vm_compute; reflexivity|].
  apply (@flag_tracks_violations json_decode
           [event_line "m1" "p1" "Hello"; event_line "m1" "p1" "Help"]).
  vm_compute. reflexivity.
Defined.

(** C9, counterexample: a part whose text is cut from "Hello" to "Hel".
    The entry recorded for it has the common prefix "Hel", the whole of
    the current text, which is no proper prefix of the current text. *)
Lemma common_prefix_may_be_current_text :
  exists mp st f,
    analyze_sse_logs json_decode
      [event_line "m1" "p1" "Hello"; event_line "m1" "p1" "Hel"] = Ok (mp, st) /\
    prefix_changes st = [f] /\
    prev f = "Hello" /\ curr f = "Hel" /\ common_prefix f = "Hel" /\
    ~ proper_prefix (common_prefix f) (curr f).
Proof.
  eexists. eexists. eexists. split; [vm_compute; reflexivity|].
  repeat split. intros [_ H]. now apply H.
Qed.

Lemma findings_are_sound_witness :
  exists mp st,
    analyze_sse_logs json_decode
      [event_line "m1" "p1" "Hello"; event_line "m1" "p1" "Hel"] = Ok (mp, st) /\
    prefix_changes st <> [] /\
    Forall finding_ok (prefix_changes st).
Proof.
  eexists. eexists. split; [vm_compute; reflexivity|]. split; [discriminate|].
  eapply (@findings_are_sound json_decode
            [event_line "m1" "p1" "Hello"; event_line "m1" "p1" "Hel"]).
  vm_compute. reflexivity.
Defined.

Lemma non_object_payload_aborts_witness :
  process_line json_decode
    [(PStr "m1", [(PStr "p1", [event_update "m1" "p1" "Hello"])])] array_line
    = Raise AttributeError /\
  analyze_sse_logs json_decode
    ([event_line "m1" "p1" "Hello"] ++ array_line :: [event_line "m1" "p1" "Hello!"])
    = Raise AttributeError.
Proof.
  apply (@non_object_payload_aborts json_decode
           [event_line "m1" "p1" "Hello"] [event_line "m1" "p1" "Hello!"]
           array_line "[1]" (PList [PInt 1])
           [(PStr "m1", [(PStr "p1", [event_update "m1" "p1" "Hello"])])]).
  - vm_compute. reflexivity.
  - vm_compute. reflexivity.
  - vm_compute. reflexivity.
  - intros d. discriminate.
Defined.

Lemma scan_compares_with_preceding_text_witness :
  exists st1,
    scan_updates (PStr "m1") (PStr "p1") 0 (PStr "") initial_state
      [text_update "abc"; text_update "abX"] = Ok st1 /\
    scan_updates (PStr "m1") (PStr "p1") 0 (PStr "") initial_state
      ([text_update "abc"; text_update "abX"] ++ [text_update "aYZ"; text_update "aYZ!"])
    = scan_updates (PStr "m1") (PStr "p1") (0 + 2)
        (PStr (last (texts_of [text_update "abc"; text_update "abX"]) "")) st1
        [text_update "aYZ"; text_update "aYZ!"] /\
    scan_updates (PStr "m1") (PStr "p1") 0 (PStr "") initial_state
      ([text_update "abc"; text_update "abX"] ++ [text_update "aYZ"; text_update "aYZ!"])
    = Ok (after_pairs (PStr "m1") (PStr "p1")
            (adjacent_pairs 0 ""
               (texts_of ([text_update "abc"; text_update "abX"]
                          ++ [text_update "aYZ"; text_update "aYZ!"])))
            initial_state).
Proof.
  apply (@scan_compares_with_preceding_text (PStr "m1") (PStr "p1")
           [text_update "abc"; text_update "abX"]
           [text_update "aYZ"; text_update "aYZ!"] 0 "" initial_state).
  reflexivity.
Defined.

Lemma common_prefix_is_longest_witness :
  exists cp,
    scan_common_prefix "Hello" "Help" = Ok cp /\
    String.prefix cp "Hello" = true /\
    String.prefix cp "Help" = true /\
    (forall s, String.prefix s "Hello" = true ->
               String.prefix s "Help" = true ->
               String.prefix s cp = true /\ String.length s <= String.length cp) /\
    cp = lcp "Hello" "Help" /\
    scan_common_prefix "Hello" "Hello" = Ok "Hello".
Proof. exact (common_prefix_is_longest "Hello" "Help"). Defined.

Lemma empty_side_adds_nothing_witness :
  exists st1,
    scan_updates (PStr "m1") (PStr "p1") 0 (PStr "") initial_state
      [text_update "Hello"] = Ok st1 /\
    scan_updates (PStr "m1") (PStr "p1") 0 (PStr "") initial_state
      ([text_update "Hello"] ++ [text_update ""]) = Ok st1.
Proof.
  apply (@empty_side_adds_nothing (PStr "m1") (PStr "p1")
           [text_update "Hello"] (text_update "") 0 "" initial_state).
  - reflexivity.
  - right. reflexivity.
Defined.

Lemma identical_updates_both_recorded_witness :
  exists mp2,
    read_log json_decode [] [event_line "m1" "p1" "Hi"; event_line "m1" "p1" "Hi"] = Ok mp2 /\
    history mp2 (PStr "m1") (PStr "p1")
      = history [] (PStr "m1") (PStr "p1")
        ++ [event_update "m1" "p1" "Hi"; event_update "m1" "p1" "Hi"] /\
    List.length (history mp2 (PStr "m1") (PStr "p1"))
      = List.length (history [] (PStr "m1") (PStr "p1")) + 2 /\
    (str_texts (history mp2 (PStr "m1") (PStr "p1")) = true ->
     forall mid pid st,
     exists st1,
       scan_updates mid pid 0 (PStr "") st
         (history [] (PStr "m1") (PStr "p1") ++ [event_update "m1" "p1" "Hi"]) = Ok st1 /\
       scan_updates mid pid 0 (PStr "") st (history mp2 (PStr "m1") (PStr "p1")) = Ok st1).
Proof.
  apply (@identical_updates_both_recorded json_decode []
           (event_line "m1" "p1" "Hi") (event_line "m1" "p1" "Hi")
           (PStr "m1") (PStr "p1") (event_update "m1" "p1" "Hi") (event_update "m1" "p1" "Hi")).
  - apply event_line_event; [vm_compute; reflexivity | discriminate | discriminate].
  - apply event_line_event; [vm_compute; reflexivity | discriminate | discriminate].
  - reflexivity.
Defined.

Lemma empty_update_masks_divergence_witness :
  exists st1,
    scan_updates (PStr "m1") (PStr "p1") 0 (PStr "") initial_state
      ([] ++ [text_update "Hello"]) = Ok st1 /\
    scan_updates (PStr "m1") (PStr "p1") 0 (PStr "") initial_state
      ([] ++ [text_update "Hello"; text_update ""; text_update "World"]) = Ok st1 /\
    scan_updates (PStr "m1") (PStr "p1") 0 (PStr "") initial_state
      ([] ++ [text_update "Hello"; text_update ""; text_update "World"] ++ [text_update "Wor"])
    = scan_updates (PStr "m1") (PStr "p1") (0 + List.length (@nil update) + 3)
        (text (text_update "World")) st1 [text_update "Wor"].
Proof.
  apply (@empty_update_masks_divergence (PStr "m1") (PStr "p1") []
           [text_update "Wor"] (text_update "Hello") (text_update "") (text_update "World")
           0 "" initial_state); reflexivity.
Defined.

(** * Further properties of the reader *)

(** ** The search for the marker *)

Lemma strip_prefix_complete (p r : string) : strip_prefix p (p ++ r) = Some r.
Proof.
  induction p as [|a p IH]; [reflexivity|].
  cbn [append strip_prefix]. now rewrite Ascii.eqb_refl.
Qed.

Lemma strip_prefix_iff (p s r : string) :
  strip_prefix p s = Some r <-> s = (p ++ r)%string.
Proof.
  split; [apply strip_prefix_append | intros ->; apply strip_prefix_complete].
Qed.

Lemma dot_star_no_newline (s : string) : occurs newline (dot_star s) = false.
Proof.
  induction s as [|c s IH]; [reflexivity|].
  simpl. destruct (Ascii.eqb c newline) eqn:E; [reflexivity|].
  simpl. now rewrite E.
Qed.

Lemma dot_star_line (s tail : string) :
  occurs newline s = false ->
  tail = "" \/ (exists rest, tail = String newline rest) ->
  dot_star (s ++ tail) = s.
Proof.
  intros Hs Ht. induction s as [|c s IH].
  - destruct Ht as [->|[rest ->]]; reflexivity.
  - simpl in Hs. apply orb_false_iff in Hs as [Hc Hs].
    simpl. rewrite Hc. now rewrite (IH Hs).
Qed.

(** The decompositions of a non-empty line around an occurrence of
    [p]: the occurrence is at the head, or it is one of the rest. *)
Lemma occurrence_cons (p : string) (c : ascii) (line pre post : string) :
  String c line = (pre ++ p ++ post)%string ->
  (pre = "" /\ strip_prefix p (String c line) = Some post) \/
  (exists pre', pre = String c pre' /\ line = (pre' ++ p ++ post)%string).
Proof.
  destruct pre as [|d pre]; simpl; intros H.
  - left. split; [reflexivity|]. rewrite H. apply strip_prefix_complete.
  - right. injection H as -> ->. now exists pre.
Qed.

(** X1: [sse_pattern.search] finds the leftmost occurrence of the
    marker that is followed by at least one character other than the
    newline, and its group is what follows that occurrence up to the
    end of the line: occurrences further left are all followed at once
    by the newline or by the end of the text. *)
Theorem sse_search_leftmost (line payload : string) :
  sse_search line = Some payload <->
  exists pre post,
    line = (pre ++ sse_marker ++ post)%string /\
    payload = dot_star post /\ payload <> "" /\
    (forall pre' post',
       line = (pre' ++ sse_marker ++ post')%string ->
       String.length pre' < String.length pre ->
       dot_star post' = "").
Proof.
  split.
  - revert payload. induction line as [|c line IH]; intros payload; [discriminate|].
    cbn [sse_search].
    destruct (strip_prefix sse_marker (String c line)) as [tail|] eqn:E.
    + destruct (dot_star tail) as [|d rest] eqn:F.
      * intros H. destruct (IH _ H) as (pre & post & -> & Hp & Hne & Hmin).
        exists (String c pre), post. repeat split; try assumption.
        intros pre' post' Hl Hlen.
        apply occurrence_cons in Hl as [[-> Hs]|(pre'' & -> & Hl)].
        -- rewrite E in Hs. injection Hs as <-. exact F.
        -- apply (Hmin pre'' post' Hl). simpl in Hlen. lia.
      * intros [= <-]. apply strip_prefix_append in E.
        exists "", tail. rewrite F. repeat split; [exact E | discriminate |].
        intros pre' post' _ Hlen. simpl in Hlen. lia.
    + intros H. destruct (IH _ H) as (pre & post & -> & Hp & Hne & Hmin).
      exists (String c pre), post. repeat split; try assumption.
      intros pre' post' Hl Hlen.
      apply occurrence_cons in Hl as [[-> Hs]|(pre'' & -> & Hl)].
      * rewrite E in Hs. discriminate.
      * apply (Hmin pre'' post' Hl). simpl in Hlen. lia.
  - intros (pre & post & Hl & Hp & Hne & Hmin).
    revert pre Hl Hmin. induction line as [|c line IH]; intros pre Hl Hmin.
    + destruct pre; discriminate.
    + cbn [sse_search].
      pose proof Hl as Hl'. apply occurrence_cons in Hl' as [[-> Hs]|(pre' & -> & Hl')].
      * rewrite Hs, <- Hp. destruct payload; [now destruct Hne | reflexivity].
      * assert (Hrest : sse_search line = Some payload).
        { apply (IH pre' Hl'). intros pre2 post2 H2 Hlen.
          apply (Hmin (String c pre2) post2); [simpl; now rewrite H2 | simpl; lia]. }
        destruct (strip_prefix sse_marker (String c line)) as [tail|] eqn:E; [|exact Hrest].
        apply strip_prefix_append in E.
        rewrite (Hmin "" tail E); [exact Hrest | simpl; lia].
Qed.

Lemma sse_search_here (line tail : string) :
  strip_prefix sse_marker line = Some tail ->
  dot_star tail <> "" ->
  sse_search line = Some (dot_star tail).
Proof.
  intros H Hne. destruct line as [|c line]; [discriminate|].
  cbn [sse_search]. rewrite H. destruct (dot_star tail); [now destruct Hne | reflexivity].
Qed.

Lemma strip_marker_mismatch (c : ascii) (s : string) :
  Ascii.eqb c "S" = false -> strip_prefix sse_marker (String c s) = None.
Proof.
  intros H. unfold sse_marker. cbn [strip_prefix].
  now rewrite Ascii.eqb_sym, H.
Qed.

(** X2: a log line is read back: after any text free of the letter S,
    the marker followed by a non-empty payload without newline, at the
    end of the text or before a newline, gives this payload as the
    group of the match. *)
Theorem sse_search_log_line (pre payload tail : string) :
  occurs "S" pre = false ->
  payload <> "" ->
  occurs newline payload = false ->
  tail = "" \/ (exists rest, tail = String newline rest) ->
  sse_search (pre ++ sse_marker ++ payload ++ tail) = Some payload.
Proof.
  intros Hpre Hne Hnl Htail. induction pre as [|c pre IH].
  - cbn [append].
    rewrite <- (dot_star_line payload Hnl Htail) at 2.
    apply sse_search_here; [apply strip_prefix_complete|].
    now rewrite (dot_star_line payload Hnl Htail).
  - simpl in Hpre. apply orb_false_iff in Hpre as [Hc Hpre].
    cbn [append sse_search]. rewrite strip_marker_mismatch by exact Hc.
    now apply IH.
Qed.

Lemma sse_search_log_line_witness :
  sse_search ("12:00:01 DEBUG " ++ sse_marker ++ "{}" ++ eol) = Some "{}".
Proof.
  apply (@sse_search_log_line "12:00:01 DEBUG " "{}" eol).
  - reflexivity.
  - discriminate.
  - reflexivity.
  - right. now exists "".
Defined.

Lemma sse_search_leftmost_witness :
  exists pre post,
    ("SSE line: data: " ++ eol ++ "SSE line: data: x" =
     pre ++ sse_marker ++ post)%string /\
    "x" = dot_star post /\ "x" <> "" /\
    (forall pre' post',
       ("SSE line: data: " ++ eol ++ "SSE line: data: x" =
        pre' ++ sse_marker ++ post')%string ->
       String.length pre' < String.length pre ->
       dot_star post' = "").
Proof.
  apply (proj1 (sse_search_leftmost
                  ("SSE line: data: " ++ eol ++ "SSE line: data: x") "x")).
  reflexivity.
Defined.

(** ** Lines that are passed over *)

Section Skipping.

Variable json_loads : string -> result pyval.

Lemma process_line_none (mp : message_table) (line : string) :
  project_line json_loads line = Ok None ->
  process_line json_loads mp line = Ok mp.
Proof. intros H. unfold process_line. now rewrite H. Qed.

Lemma analyze_skip (before after : list string) (line : string) :
  project_line json_loads line = Ok None ->
  analyze_sse_logs json_loads (before ++ line :: after)
  = analyze_sse_logs json_loads (before ++ after).
Proof.
  intros H. unfold analyze_sse_logs. rewrite !read_log_app.
  destruct (read_log json_loads [] before) as [mp|]; cbn [bind]; [|reflexivity].
  cbn [read_log]. now rewrite (@process_line_none mp line H).
Qed.

Lemma project_data_other_type (d : list (string * pyval)) :
  dict_get "type" d <> Some (PStr part_updated) ->
  project_data (PDict d) = Ok None.
Proof.
  intros H. unfold project_data. cbn [py_get bind].
  destruct (is_part_updated (get_default PNone (dict_get "type" d))) eqn:E; [|reflexivity].
  apply is_part_updated_iff in E. destruct (dict_get "type" d) as [v|]; [|discriminate].
  cbn in E. now subst v.
Qed.

(** X3: a line without the marker, a line whose payload [json.loads]
    rejects with [JSONDecodeError], and a line whose payload is an
    object with another [type] (whatever else it holds) have no
    influence: the analysis of the log is that of the log without the
    line. *)
Theorem noise_line_ignored (before after : list string) (line : string) :
  ~ contains_marker line \/
  (exists payload,
     sse_search line = Some payload /\
     json_loads payload = Raise JSONDecodeError) \/
  (exists payload d,
     sse_search line = Some payload /\
     json_loads payload = Ok (PDict d) /\
     dict_get "type" d <> Some (PStr part_updated)) ->
  analyze_sse_logs json_loads (before ++ line :: after)
  = analyze_sse_logs json_loads (before ++ after).
Proof.
  intros H. apply analyze_skip. unfold project_line.
  destruct H as [H|[(payload & Hs & Hj)|(payload & d & Hs & Hj & Ht)]].
  - now rewrite (no_marker_no_match H).
  - now rewrite Hs, Hj.
  - rewrite Hs, Hj. now apply project_data_other_type.
Qed.

(** X4: a part update that lacks an identifier is passed over.  When
    [properties] and [properties.part] are objects or absent, and
    [messageID] or [id] is absent or fails the test of line 32 (the
    empty string, [null], zero, [false], an empty container), nothing is
    stored and the analysis is that of the log without the line. *)
Theorem update_without_ids_ignored (before after : list string) (line payload : string)
    (d props part : list (string * pyval)) :
  sse_search line = Some payload ->
  json_loads payload = Ok (PDict d) ->
  dict_get "type" d = Some (PStr part_updated) ->
  get_default (PDict []) (dict_get "properties" d) = PDict props ->
  get_default (PDict []) (dict_get "part" props) = PDict part ->
  truthy (get_default PNone (dict_get "messageID" part)) = false \/
  truthy (get_default PNone (dict_get "id" part)) = false ->
  analyze_sse_logs json_loads (before ++ line :: after)
  = analyze_sse_logs json_loads (before ++ after).
Proof.
  intros Hs Hj Ht Hp Hq Hid. apply analyze_skip.
  unfold project_line. rewrite Hs, Hj.
  unfold project_data. cbn [py_get bind]. rewrite Ht. cbn [get_default].
  replace (is_part_updated (PStr part_updated)) with true by reflexivity.
  rewrite Hp. cbn [py_get bind]. rewrite Hq.
  unfold project_part. cbn [py_get bind].
  destruct Hid as [E|E]; rewrite E; [reflexivity | now rewrite andb_false_r].
Qed.

End Skipping.

Lemma noise_line_ignored_witness :
  analyze_sse_logs json_decode
    ([event_line "m1" "p1" "Hel"] ++ other_event_line :: [event_line "m1" "p1" "Hello"])
  = analyze_sse_logs json_decode
      ([event_line "m1" "p1" "Hel"] ++ [event_line "m1" "p1" "Hello"]).
Proof.
  apply (@noise_line_ignored json_decode).
  right. right.
  exists (dq "{'type':'session.idle','properties':7}"),
         [("type", PStr "session.idle"); ("properties", PInt 7)].
  split; [vm_compute; reflexivity|]. split; [vm_compute; reflexivity | discriminate].
Defined.

Lemma update_without_ids_ignored_witness :
  analyze_sse_logs json_decode
    ([event_line "m1" "p1" "Hel"] ++ no_id_line :: [event_line "m1" "p1" "Hello"])
  = analyze_sse_logs json_decode
      ([event_line "m1" "p1" "Hel"] ++ [event_line "m1" "p1" "Hello"]).
Proof.
  apply (@update_without_ids_ignored json_decode
           [event_line "m1" "p1" "Hel"] [event_line "m1" "p1" "Hello"] no_id_line
           (dq "{'type':'message.part.updated','properties':{'part':{'id':'p1','text':'lost'}}}")
           [("type", PStr part_updated);
            ("properties", PDict [("part", PDict [("id", PStr "p1"); ("text", PStr "lost")])])]
           [("part", PDict [("id", PStr "p1"); ("text", PStr "lost")])]
           [("id", PStr "p1"); ("text", PStr "lost")]).
  - vm_compute. reflexivity.
  - vm_compute. reflexivity.
  - reflexivity.
  - reflexivity.
  - reflexivity.
  - left. reflexivity.
Defined.

(** ** The grouping of the updates *)

Lemma key_eqb_str_r (k : pyval) (s : string) : key_eqb k (PStr s) = true -> k = PStr s.
Proof.
  destruct k; cbn; try discriminate. intros H. apply String.eqb_eq in H. now subst.
Qed.

Lemma key_eqb_str_sym (k : pyval) (s : string) : key_eqb (PStr s) k = key_eqb k (PStr s).
Proof. destruct k; cbn; try reflexivity. apply String.eqb_sym. Qed.

Lemma dd_lookup_update_other {V : Type} (k : pyval) (s : string) (f : V -> V)
    (default : V) (d : list (pyval * V)) :
  key_eqb k (PStr s) = false ->
  dd_lookup (PStr s) (dd_update k f default d) = dd_lookup (PStr s) d.
Proof.
  intros Hk. induction d as [|[k' v] d IH]; cbn [dd_update dd_lookup].
  - now rewrite Hk.
  - destruct (key_eqb k' k) eqn:E; cbn [dd_lookup].
    + destruct (key_eqb k' (PStr s)) eqn:F; [|reflexivity].
      apply key_eqb_str_r in F. subst k'.
      rewrite key_eqb_str_sym in E. congruence.
    + now rewrite IH.
Qed.

Lemma key_eqb_str_refl (s : string) : key_eqb (PStr s) (PStr s) = true.
Proof. apply String.eqb_refl. Qed.

(** Line 39 seen from one part: its history takes the update when
    both keys are its own, and stays as it is otherwise. *)
Lemma history_append_update (mp mp' : message_table) (km kp : pyval) (u : update)
    (m p : string) :
  append_update mp km kp u = Ok mp' ->
  history mp' (PStr m) (PStr p)
  = history mp (PStr m) (PStr p)
    ++ (if key_eqb km (PStr m) && key_eqb kp (PStr p) then [u] else []).
Proof.
  unfold append_update.
  destruct (hashable km); [|discriminate]. destruct (hashable kp); [|discriminate].
  cbn [negb]. intros [= <-]. unfold history.
  destruct (key_eqb km (PStr m)) eqn:E; cbn [andb].
  - apply key_eqb_str_r in E. subst km.
    rewrite (dd_lookup_update _ _ _ _ (key_eqb_str_refl m)).
    set (parts := match dd_lookup (PStr m) mp with Some v => v | None => [] end).
    assert (Hh : match dd_lookup (PStr m) mp with
                 | Some parts0 =>
                     match dd_lookup (PStr p) parts0 with Some us => us | None => [] end
                 | None => []
                 end
                 = match dd_lookup (PStr p) parts with Some us => us | None => [] end).
    { unfold parts. now destruct (dd_lookup (PStr m) mp). }
    rewrite Hh. destruct (key_eqb kp (PStr p)) eqn:F.
    + apply key_eqb_str_r in F. subst kp.
      rewrite (dd_lookup_update _ _ _ _ (key_eqb_str_refl p)).
      now destruct (dd_lookup (PStr p) parts).
    + rewrite (dd_lookup_update_other _ _ _ _ _ F). now rewrite app_nil_r.
  - rewrite (dd_lookup_update_other _ _ _ _ _ E). now rewrite app_nil_r.
Qed.

(** X5: the grouping is stable and only appends.  After the lines of a
    log have been read, the history of the part with the string keys
    [m] and [p] is its history before, followed by the updates that
    the lines carry for this part, in the order of the lines; the lines
    of other parts, whatever their keys, leave it as it is. *)
Theorem grouping_is_stable (json_loads : string -> result pyval)
    (lines : list string) (mp mp' : message_table) (m p : string) :
  read_log json_loads mp lines = Ok mp' ->
  history mp' (PStr m) (PStr p)
  = history mp (PStr m) (PStr p) ++ event_updates json_loads (PStr m) (PStr p) lines.
Proof.
  revert mp. induction lines as [|line lines IH]; intros mp.
  - intros [= <-]. cbn. now rewrite app_nil_r.
  - cbn [read_log]. unfold process_line at 1.
    unfold event_updates. cbn [flat_map]. fold (event_updates json_loads (PStr m) (PStr p) lines).
    destruct (project_line json_loads line) as [[[[km kp] u]|]|e]; cbn [bind]; [| |discriminate].
    + destruct (append_update mp km kp u) as [mp1|] eqn:E; cbn [bind]; [|discriminate].
      intros H. rewrite (IH _ H), (history_append_update _ _ _ _ _ _ E).
      now rewrite app_assoc.
    + intros H. now rewrite (IH _ H).
Qed.

Lemma grouping_is_stable_witness :
  history
    [(PStr "m1", [(PStr "p1", [event_update "m1" "p1" "a"; event_update "m1" "p1" "ab"]);
                  (PStr "p2", [event_update "m1" "p2" "x"])])]
    (PStr "m1") (PStr "p1")
  = history [] (PStr "m1") (PStr "p1")
    ++ event_updates json_decode (PStr "m1") (PStr "p1")
         [event_line "m1" "p1" "a"; event_line "m1" "p2" "x"; truncated_line;
          event_line "m1" "p1" "ab"].
Proof.
  apply (@grouping_is_stable json_decode
           [event_line "m1" "p1" "a"; event_line "m1" "p2" "x"; truncated_line;
            event_line "m1" "p1" "ab"] []).
  vm_compute. reflexivity.
Defined.

(** ** What every table of the reader satisfies *)

Lemma dd_update_keys {V : Type} (k : pyval) (f : V -> V) (default : V)
    (d : list (pyval * V)) :
  map fst (dd_update k f default d)
  = if existsb (fun k' => key_eqb k' k) (map fst d) then map fst d
    else map fst d ++ [k].
Proof.
  induction d as [|[k' v] d IH]; [reflexivity|].
  cbn [dd_update map fst existsb].
  destruct (key_eqb k' k); cbn [orb map fst]; [reflexivity|].
  rewrite IH. now destruct (existsb (fun k'0 => key_eqb k'0 k) (map fst d)).
Qed.

Lemma keys_distinct_snoc (ks : list pyval) (k : pyval) :
  keys_distinct ks = true ->
  existsb (fun k' => key_eqb k' k) ks = false ->
  keys_distinct (ks ++ [k]) = true.
Proof.
  induction ks as [|k0 ks IH]; [reflexivity|].
  cbn [keys_distinct existsb app].
  rewrite andb_true_iff, negb_true_iff, orb_false_iff.
  intros [H1 H2] [H3 H4].
  rewrite existsb_app, H1. cbn [existsb]. rewrite H3. cbn [orb negb andb].
  now apply IH.
Qed.

Lemma dd_update_keys_distinct {V : Type} (k : pyval) (f : V -> V) (default : V)
    (d : list (pyval * V)) :
  keys_distinct (map fst d) = true ->
  keys_distinct (map fst (dd_update k f default d)) = true.
Proof.
  intros H. rewrite dd_update_keys.
  destruct (existsb (fun k' => key_eqb k' k) (map fst d)) eqn:E; [exact H|].
  now apply keys_distinct_snoc.
Qed.

Lemma dd_update_forallb {V : Type} (P : pyval * V -> bool) (k : pyval) (f : V -> V)
    (default : V) (d : list (pyval * V)) :
  forallb P d = true ->
  P (k, f default) = true ->
  (forall k' v, P (k', v) = true -> P (k', f v) = true) ->
  forallb P (dd_update k f default d) = true.
Proof.
  intros Hd Hnew Hf. induction d as [|[k' v] d IH]; cbn [dd_update forallb].
  - now rewrite Hnew.
  - cbn [forallb] in Hd. apply andb_true_iff in Hd as [H1 H2].
    destruct (key_eqb k' k); cbn [forallb].
    + now rewrite (Hf _ _ H1), H2.
    + now rewrite H1, (IH H2).
Qed.

Lemma dd_update_length {V : Type} (k : pyval) (f : V -> V) (default : V)
    (d : list (pyval * V)) :
  Nat.eqb (List.length (dd_update k f default d)) 0 = false.
Proof.
  destruct d as [|[k' v] d]; [reflexivity|].
  cbn [dd_update]. now destruct (key_eqb k' k).
Qed.

Lemma snoc_length {A : Type} (l : list A) (a : A) :
  Nat.eqb (List.length (l ++ [a])) 0 = false.
Proof. rewrite length_app. cbn. apply Nat.eqb_neq. lia. Qed.

Lemma append_update_ok (mp mp' : message_table) (km kp : pyval) (u : update) :
  truthy km = true -> truthy kp = true ->
  table_ok mp = true ->
  append_update mp km kp u = Ok mp' ->
  table_ok mp' = true.
Proof.
  intros Tm Tp Hok. unfold append_update.
  destruct (hashable km) eqn:Hm; [|discriminate].
  destruct (hashable kp) eqn:Hp; [|discriminate].
  cbn [negb]. intros [= <-].
  unfold table_ok in *. apply andb_true_iff in Hok as [Hk Hf].
  apply andb_true_iff. split; [now apply dd_update_keys_distinct|].
  assert (Up : usable_key kp = true) by (unfold usable_key; now rewrite Tp, Hp).
  assert (Um : usable_key km = true) by (unfold usable_key; now rewrite Tm, Hm).
  apply dd_update_forallb; [exact Hf | |].
  - unfold message_ok. cbn [fst snd dd_update map keys_distinct existsb forallb List.length].
    unfold part_ok. cbn [fst snd List.length app]. now rewrite Um, Up.
  - intros k' parts H. unfold message_ok in *. cbn [fst snd] in *.
    apply andb_true_iff in H as [H H4]. apply andb_true_iff in H as [H H3].
    apply andb_true_iff in H as [H1 H2].
    rewrite H1, dd_update_length, (dd_update_keys_distinct _ _ _ _ H3). cbn [negb andb].
    apply dd_update_forallb; [exact H4 | |].
    + unfold part_ok. cbn [fst snd List.length app]. now rewrite Up.
    + intros k2 us Hus. unfold part_ok in *. cbn [fst snd] in *.
      apply andb_true_iff in Hus as [Hu _]. now rewrite Hu, snoc_length.
Qed.

Lemma read_log_keeps_table_ok (json_loads : string -> result pyval)
    (lines : list string) (mp mp' : message_table) :
  table_ok mp = true ->
  read_log json_loads mp lines = Ok mp' ->
  table_ok mp' = true.
Proof.
  revert mp. induction lines as [|line lines IH]; intros mp Hok.
  - now intros [= <-].
  - cbn [read_log]. unfold process_line at 1.
    destruct (project_line json_loads line) as [[[[km kp] u]|]|e] eqn:E;
      cbn [bind]; [| |discriminate].
    + destruct (append_update mp km kp u) as [mp1|] eqn:A; cbn [bind]; [|discriminate].
      apply project_line_some in E as (payload & data & _ & _ & E).
      apply project_data_some in E
        as (d & props & part & _ & _ & _ & _ & _ & _ & Tm & Tp & _).
      apply IH. exact (@append_update_ok mp mp1 km kp u Tm Tp Hok A).
    + now apply IH.
Qed.

(** X6: the reader keeps [message_parts] well formed.  In the table it
    returns, no two messages and no two parts of a message have equal
    keys, every key passes the test of line 32 and is hashable, every
    message has at least one part and every part at least one update. *)
Theorem read_log_table_ok (json_loads : string -> result pyval)
    (lines : list string) (mp mp' : message_table) :
  table_ok mp = true ->
  read_log json_loads mp lines = Ok mp' ->
  table_ok mp' = true.
Proof.
  revert mp. induction lines as [|line lines IH]; intros mp Hok; [now intros [= <-]|].
  cbn [read_log]. unfold process_line at 1.
  destruct (project_line json_loads line) as [[[[km kp] u]|]|e] eqn:E;
    cbn [bind]; [| |discriminate]; [|now apply IH].
  destruct (append_update mp km kp u) as [mp1|] eqn:A; cbn [bind]; [|discriminate].
  apply project_line_some in E as (payload & data & _ & _ & E).
  apply project_data_some in E
    as (d & props & part & _ & _ & _ & _ & _ & _ & Tm & Tp & _).
  apply IH. exact (@append_update_ok mp mp1 km kp u Tm Tp Hok A).
Qed.

Lemma read_log_table_ok_witness :
  table_ok
    [(PStr "m1", [(PStr "p1", [event_update "m1" "p1" "a"; event_update "m1" "p1" "ab"]);
                  (PStr "p2", [event_update "m1" "p2" "x"])])] = true.
Proof.
  apply (@read_log_table_ok json_decode
           [event_line "m1" "p1" "a"; event_line "m1" "p2" "x"; event_line "m1" "p1" "ab"]
           []).
  - reflexivity.
  - vm_compute. reflexivity.
Defined.

(** ** Lines that end the run *)

Section Aborting.

Variable json_loads : string -> result pyval.

Lemma analyze_aborts (before after : list string) (line : string)
    (mp : message_table) (e : exn) :
  read_log json_loads [] before = Ok mp ->
  process_line json_loads mp line = Raise e ->
  analyze_sse_logs json_loads (before ++ line :: after) = Raise e.
Proof.
  intros Hb H. unfold analyze_sse_logs. rewrite read_log_app, Hb.
  cbn [bind read_log]. now rewrite H.
Qed.

(** X7: only [JSONDecodeError] is caught.  Any other exception that
    [json.loads] raises on the payload of a line (a [RecursionError] on
    deep nesting, a [ValueError] on an over-long integer) leaves
    [analyze_sse_logs] and ends the run, whatever lines come before and
    after. *)
Theorem decoder_exception_propagates (before after : list string)
    (line payload : string) (mp : message_table) (e : exn) :
  read_log json_loads [] before = Ok mp ->
  sse_search line = Some payload ->
  json_loads payload = Raise e ->
  e <> JSONDecodeError ->
  analyze_sse_logs json_loads (before ++ line :: after) = Raise e.
Proof.
  intros Hb Hs Hj He. apply (analyze_aborts _ _ _ Hb).
  unfold process_line, project_line. rewrite Hs, Hj.
  destruct e; try reflexivity. now destruct He.
Qed.

(** X8: a part update whose [properties], or whose [properties.part],
    is present and is not an object ends the run with
    [AttributeError]. *)
Theorem malformed_properties_abort (before after : list string)
    (line payload : string) (mp : message_table) (d : list (string * pyval)) (v : pyval) :
  read_log json_loads [] before = Ok mp ->
  sse_search line = Some payload ->
  json_loads payload = Ok (PDict d) ->
  dict_get "type" d = Some (PStr part_updated) ->
  is_dict v = false ->
  dict_get "properties" d = Some v \/
  (exists props,
     get_default (PDict []) (dict_get "properties" d) = PDict props /\
     dict_get "part" props = Some v) ->
  analyze_sse_logs json_loads (before ++ line :: after) = Raise AttributeError.
Proof.
  intros Hb Hs Hj Ht Hv H. apply (analyze_aborts _ _ _ Hb).
  unfold process_line, project_line. rewrite Hs, Hj.
  unfold project_data. cbn [py_get bind]. rewrite Ht. cbn [get_default].
  replace (is_part_updated (PStr part_updated)) with true by reflexivity.
  destruct H as [Hp|(props & Hp & Hq)].
  - rewrite Hp. cbn [get_default]. now destruct v.
  - rewrite Hp. cbn [py_get bind]. rewrite Hq. cbn [get_default]. now destruct v.
Qed.

(** X9: a part update whose [messageID] and [id] both pass the test
    of line 32 while one of them is a list or an object ends the run
    with [TypeError]: the key cannot be hashed at line 39. *)
Theorem unhashable_id_aborts (before after : list string)
    (line payload : string) (mp : message_table) (d props part : list (string * pyval))
    (m p : pyval) :
  read_log json_loads [] before = Ok mp ->
  sse_search line = Some payload ->
  json_loads payload = Ok (PDict d) ->
  dict_get "type" d = Some (PStr part_updated) ->
  dict_get "properties" d = Some (PDict props) ->
  dict_get "part" props = Some (PDict part) ->
  dict_get "messageID" part = Some m ->
  dict_get "id" part = Some p ->
  truthy m = true -> truthy p = true ->
  hashable m = false \/ hashable p = false ->
  analyze_sse_logs json_loads (before ++ line :: after) = Raise TypeError.
Proof.
  intros Hb Hs Hj Ht Hp Hq Hm Hi Tm Tp Hh. apply (analyze_aborts _ _ _ Hb).
  assert (E : project_line json_loads line
              = Ok (Some (m, p,
                          {| text := get_default (PStr "") (dict_get "text" part);
                             type := get_default PNone (dict_get "type" part);
                             full_data := PDict part |}))).
  { apply project_line_some. exists payload, (PDict d).
    split; [exact Hs|]. split; [exact Hj|].
    apply project_data_some. exists d, props, part. auto 10. }
  unfold process_line. rewrite E. cbn [bind]. unfold append_update.
  destruct Hh as [H|H]; rewrite H; cbn [negb]; [reflexivity|].
  now destruct (hashable m).
Qed.

End Aborting.

Lemma decoder_exception_propagates_witness :
  analyze_sse_logs (failing_decode RecursionError)
    (["no marker here"] ++ array_line :: [event_line "m1" "p1" "Hi"])
  = Raise RecursionError.
Proof.
  apply (@decoder_exception_propagates (failing_decode RecursionError)
           ["no marker here"] [event_line "m1" "p1" "Hi"] array_line "[1]" []).
  - reflexivity.
  - vm_compute. reflexivity.
  - reflexivity.
  - discriminate.
Defined.

Lemma malformed_properties_abort_witness :
  analyze_sse_logs json_decode
    ([event_line "m1" "p1" "Hi"] ++ bad_properties_line :: [event_line "m1" "p1" "Hi!"])
  = Raise AttributeError.
Proof.
  apply (@malformed_properties_abort json_decode
           [event_line "m1" "p1" "Hi"] [event_line "m1" "p1" "Hi!"] bad_properties_line
           (dq "{'type':'message.part.updated','properties':'none'}")
           [(PStr "m1", [(PStr "p1", [event_update "m1" "p1" "Hi"])])]
           [("type", PStr part_updated); ("properties", PStr "none")]
           (PStr "none")).
  - vm_compute. reflexivity.
  - vm_compute. reflexivity.
  - vm_compute. reflexivity.
  - reflexivity.
  - reflexivity.
  - left. reflexivity.
Defined.

Lemma unhashable_id_aborts_witness :
  analyze_sse_logs json_decode
    ([event_line "m1" "p1" "Hi"] ++ list_id_line :: [event_line "m1" "p1" "Hi!"])
  = Raise TypeError.
Proof.
  apply (@unhashable_id_aborts json_decode
           [event_line "m1" "p1" "Hi"] [event_line "m1" "p1" "Hi!"] list_id_line
           (dq "{'type':'message.part.updated','properties':{'part':{'messageID':['m1'],'id':'p1','text':'Hi'}}}")
           [(PStr "m1", [(PStr "p1", [event_update "m1" "p1" "Hi"])])]
           [("type", PStr part_updated);
            ("properties",
             PDict [("part", PDict [("messageID", PList [PStr "m1"]); ("id", PStr "p1");
                                    ("text", PStr "Hi")])])]
           [("part", PDict [("messageID", PList [PStr "m1"]); ("id", PStr "p1");
                            ("text", PStr "Hi")])]
           [("messageID", PList [PStr "m1"]); ("id", PStr "p1"); ("text", PStr "Hi")]
           (PList [PStr "m1"]) (PStr "p1")).
  all: try (vm_compute; reflexivity).
  left. reflexivity.
Defined.

(** * Further properties of the scan *)

(** ** The result of a completed run *)

(** A comparison that completes treats a value that is no string as
    the empty text. *)
Lemma check_update_general (mid pid : pyval) (i : nat) (pv tv : pyval)
    (st st' : scan_state) :
  check_update mid pid i pv tv st = Ok st' ->
  st' = after_pair mid pid (i + 1) (str_of pv) (str_of tv) st.
Proof.
  destruct pv as [| | | |p| |], tv as [| | | |t| |];
    try (rewrite check_update_str; now intros [= <-]);
    unfold check_update; destruct (truthy _ && truthy _); try discriminate;
    intros [= <-]; symmetry; apply after_pair_unchanged;
    (apply violates_empty_l || apply violates_empty_r).
Qed.

Lemma scan_update_general (mid pid : pyval) (i : nat) (pv : pyval) (u : update)
    (st st' : scan_state) :
  scan_update mid pid i pv st u = Ok st' ->
  st' = after_pair mid pid (i + 1) (str_of pv) (str_of (text u)) st.
Proof.
  unfold scan_update. destruct (py_len (text u)); cbn [bind]; [|discriminate].
  destruct (check_update mid pid i pv (text u) st) as [s|] eqn:E; cbn [bind]; [|discriminate].
  destruct (show_text (text u)); cbn [bind]; [|discriminate].
  intros [= <-]. now apply check_update_general in E.
Qed.

Lemma scan_updates_general (mid pid : pyval) (us : list update) (i : nat) (pv : pyval)
    (st st' : scan_state) :
  scan_updates mid pid i pv st us = Ok st' ->
  st' = after_pairs mid pid (adjacent_pairs i (str_of pv) (texts_of us)) st.
Proof.
  revert i pv st. induction us as [|u us IH]; intros i pv st.
  - intros [= <-]. unfold after_pairs. cbn. rewrite orb_false_r, app_nil_r. now destruct st.
  - cbn [scan_updates].
    destruct (scan_update mid pid i pv st u) as [s|] eqn:E; cbn [bind]; [|discriminate].
    intros H. apply scan_update_general in E. apply IH in H. subst s st'.
    cbn [texts_of map]. rewrite adjacent_pairs_cons. now rewrite <- after_pairs_cons.
Qed.

Lemma scan_parts_findings (mid : pyval) (parts : part_table) (st st' : scan_state) :
  scan_parts mid st parts = Ok st' ->
  prefix_changes st' = prefix_changes st ++ flat_map (part_findings mid) parts.
Proof.
  revert st. induction parts as [|[pid us] parts IH]; intros st.
  - intros [= <-]. cbn. now rewrite app_nil_r.
  - cbn [scan_parts].
    destruct (scan_updates mid pid 0 (PStr "") st us) as [s|] eqn:E; cbn [bind]; [|discriminate].
    intros H. apply scan_updates_general in E. apply IH in H. subst s.
    rewrite H. cbn [after_pairs prefix_changes flat_map str_of].
    unfold part_findings at 2. cbn [fst snd]. now rewrite app_assoc.
Qed.

Lemma scan_messages_findings (mp : message_table) (st st' : scan_state) :
  scan_messages st mp = Ok st' ->
  prefix_changes st' = prefix_changes st ++ table_findings mp.
Proof.
  revert st. induction mp as [|[mid parts] mp IH]; intros st.
  - intros [= <-]. cbn. now rewrite app_nil_r.
  - cbn [scan_messages].
    destruct (scan_parts mid st parts) as [s|] eqn:E; cbn [bind]; [|discriminate].
    intros H. apply scan_parts_findings in E. apply IH in H.
    rewrite H, E. unfold table_findings. cbn [flat_map fst snd]. now rewrite app_assoc.
Qed.

Lemma analyze_findings (json_loads : string -> result pyval) (lines : list string)
    (mp : message_table) (st : scan_state) :
  analyze_sse_logs json_loads lines = Ok (mp, st) ->
  read_log json_loads [] lines = Ok mp /\ prefix_changes st = table_findings mp.
Proof.
  unfold analyze_sse_logs.
  destruct (read_log json_loads [] lines) as [mp'|]; cbn [bind]; [|discriminate].
  destruct (scan_messages initial_state mp') as [st'|] eqn:E; cbn [bind]; [|discriminate].
  intros [= <- <-]. split; [reflexivity|]. now apply scan_messages_findings in E.
Qed.

(** X11: the order of the report.  In every completed run
    [prefix_changes] is the list of the entries of the adjacent pairs of
    the histories of the returned [message_parts], message by message
    and part by part in the order of that table, and within a part by
    increasing update number. *)
Theorem findings_follow_table_order (json_loads : string -> result pyval)
    (lines : list string) (mp : message_table) (st : scan_state) :
  analyze_sse_logs json_loads lines = Ok (mp, st) ->
  prefix_changes st = table_findings mp.
Proof.
  unfold analyze_sse_logs.
  destruct (read_log json_loads [] lines) as [mp'|]; cbn [bind]; [|discriminate].
  destruct (scan_messages initial_state mp') as [st'|] eqn:E; cbn [bind]; [|discriminate].
  intros [= <- <-]. apply scan_messages_findings in E. exact E.
Qed.

Lemma findings_follow_table_order_witness :
  exists mp st,
    analyze_sse_logs json_decode
      [event_line "m1" "p1" "Hello"; event_line "m2" "p1" "abc"; event_line "m1" "p1" "Help";
       event_line "m2" "p1" "abd"; event_line "m1" "p1" "Heat"] = Ok (mp, st) /\
    map (fun f => (message_id f, update_num f)) (prefix_changes st)
      = [(PStr "m1", 2); (PStr "m1", 3); (PStr "m2", 2)] /\
    prefix_changes st = table_findings mp.
Proof.
  eexists. eexists. split; [vm_compute; reflexivity|]. split; [reflexivity|].
  eapply (@findings_follow_table_order json_decode
            [event_line "m1" "p1" "Hello"; event_line "m2" "p1" "abc";
             event_line "m1" "p1" "Help"; event_line "m2" "p1" "abd";
             event_line "m1" "p1" "Heat"]).
  vm_compute. reflexivity.
Defined.

(** ** Where the entries come from *)

Lemma in_adjacent_pairs (texts : list string) (i : nat) (p : string) (n : nat)
    (a b : string) :
  In (n, (a, b)) (adjacent_pairs i p texts) ->
  exists k,
    n = i + k + 1 /\ nth_error (p :: texts) k = Some a /\ nth_error texts k = Some b.
Proof.
  revert i p. induction texts as [|t texts IH]; intros i p; [intros []|].
  rewrite adjacent_pairs_cons. intros [H|H].
  - injection H as <- <- <-. exists 0. now rewrite Nat.add_0_r.
  - apply IH in H as (k & -> & Ha & Hb). exists (S k). repeat split; [lia | exact Ha | exact Hb].
Qed.

Lemma in_pair_findings (mid pid : pyval) (n : nat) (a b : string) (f : finding) :
  In f (pair_findings mid pid n a b) ->
  f = {| message_id := mid; part_id := pid; update_num := n;
         prev := a; curr := b; common_prefix := lcp a b |} /\
  violates a b = true.
Proof.
  unfold pair_findings. destruct (violates a b); cbn [andb]; [|intros []].
  destruct (negb (lcp a b =? "")); [|intros []].
  intros [<-|[]]. now split.
Qed.

Lemma nth_text_str (us : list update) (k : nat) (a : string) :
  nth_error (texts_of us) k = Some a -> a <> "" ->
  nth_error (map text us) k = Some (PStr a).
Proof.
  unfold texts_of. rewrite !nth_error_map.
  destruct (nth_error us k) as [u|]; cbn; [|discriminate].
  intros [= <-] Hne. f_equal. destruct (text u); try reflexivity; now destruct Hne.
Qed.

Lemma table_finding_located (mp : message_table) (f : finding) :
  In f (table_findings mp) ->
  exists parts us k,
    In (message_id f, parts) mp /\ In (part_id f, us) parts /\
    update_num f = k + 2 /\
    nth_error (map text us) k = Some (PStr (prev f)) /\
    nth_error (map text us) (S k) = Some (PStr (curr f)).
Proof.
  unfold table_findings. rewrite in_flat_map. intros ([mid parts] & Hm & H).
  cbn [fst snd] in H. rewrite in_flat_map in H. destruct H as ([pid us] & Hp & H).
  unfold part_findings in H. cbn [fst snd] in H. rewrite in_flat_map in H.
  destruct H as ([n [a b]] & Hq & H). cbn [fst snd] in H.
  apply in_pair_findings in H as [-> Hv].
  apply violates_true_iff in Hv as (Ha & Hb & _).
  apply in_adjacent_pairs in Hq as (k & -> & Hka & Hkb).
  destruct k as [|k]; [cbn in Hka; injection Hka as <-; now destruct Ha|].
  cbn [nth_error] in Hka. cbn [message_id part_id update_num prev curr].
  exists parts, us, k. repeat split; try assumption; [lia | |]; now apply nth_text_str.
Qed.

(** X12: every entry points at two updates that are there.  In every
    completed run, an entry of [prefix_changes] names a message and a
    part of the returned [message_parts], its update number is at least
    2 and at most the length of the history of that part, and its
    previous and current texts are the texts of the update before and of
    the update with that number. *)
Theorem finding_points_at_updates (json_loads : string -> result pyval)
    (lines : list string) (mp : message_table) (st : scan_state) (f : finding) :
  analyze_sse_logs json_loads lines = Ok (mp, st) ->
  In f (prefix_changes st) ->
  exists parts us,
    In (message_id f, parts) mp /\ In (part_id f, us) parts /\
    2 <= update_num f <= List.length us /\
    nth_error (map text us) (update_num f - 2) = Some (PStr (prev f)) /\
    nth_error (map text us) (update_num f - 1) = Some (PStr (curr f)).
Proof.
  intros H Hf. apply analyze_findings in H as [_ H]. rewrite H in Hf.
  apply table_finding_located in Hf as (parts & us & k & Hm & Hp & Hn & Ha & Hb).
  exists parts, us. rewrite Hn.
  replace (k + 2 - 2) with k by lia. replace (k + 2 - 1) with (S k) by lia.
  repeat split; try assumption; [lia|].
  assert (Hl : S k < List.length (map text us)) by (apply nth_error_Some; congruence).
  rewrite length_map in Hl. lia.
Qed.

Lemma finding_points_at_updates_witness :
  exists parts us,
    In (PStr "m1", parts)
       [(PStr "m1", [(PStr "p1", [event_update "m1" "p1" "Hello";
                                  event_update "m1" "p1" "Help"])])] /\
    In (PStr "p1", us) parts /\
    2 <= 2 <= List.length us /\
    nth_error (map text us) (2 - 2) = Some (PStr "Hello") /\
    nth_error (map text us) (2 - 1) = Some (PStr "Help").
Proof.
  apply (@finding_points_at_updates json_decode
           [event_line "m1" "p1" "Hello"; event_line "m1" "p1" "Help"]
           [(PStr "m1", [(PStr "p1", [event_update "m1" "p1" "Hello";
                                      event_update "m1" "p1" "Help"])])]
           {| erasure_found := true;
              prefix_changes :=
                [{| message_id := PStr "m1"; part_id := PStr "p1"; update_num := 2;
                    prev := "Hello"; curr := "Help"; common_prefix := "Hel" |}] |}
           {| message_id := PStr "m1"; part_id := PStr "p1"; update_num := 2;
              prev := "Hello"; curr := "Help"; common_prefix := "Hel" |}).
  - vm_compute. reflexivity.
  - left. reflexivity.
Defined.

(** ** Histories that only grow *)

Lemma quiet_pairs (mid pid : pyval) (pairs : list (nat * (string * string)))
    (st : scan_state) :
  (forall q, In q pairs -> violates (fst (snd q)) (snd (snd q)) = false) ->
  after_pairs mid pid pairs st = st.
Proof.
  intros H. induction pairs as [|q pairs IH].
  - unfold after_pairs. cbn. rewrite orb_false_r, app_nil_r. now destruct st.
  - rewrite <- after_pairs_cons.
    rewrite after_pair_unchanged by (apply H; now left).
    apply IH. intros q' Hq. apply H. now right.
Qed.

(** X13: a history that only grows is clean.  On a history of strings
    in which every non-empty text starts with the text before it when
    that is non-empty, the scan completes and sets neither the flag nor
    adds an entry. *)
Theorem additive_history_is_clean (mid pid : pyval) (us : list update) (st : scan_state) :
  str_texts us = true ->
  (forall k A B,
     nth_error (texts_of us) k = Some A ->
     nth_error (texts_of us) (S k) = Some B ->
     A <> "" -> B <> "" -> String.prefix A B = true) ->
  scan_updates mid pid 0 (PStr "") st us = Ok st.
Proof.
  intros Hs H. rewrite (scan_updates_str mid pid us 0 "" st Hs). f_equal.
  apply quiet_pairs. intros [n [a b]] Hq. cbn [fst snd].
  apply in_adjacent_pairs in Hq as (k & _ & Ha & Hb).
  destruct k as [|k]; [cbn in Ha; injection Ha as <-; apply violates_empty_l|].
  cbn [nth_error] in Ha.
  destruct (violates a b) eqn:E; [|reflexivity].
  apply violates_true_iff in E as (Ea & Eb & Ep).
  rewrite (H k a b Ha Hb Ea Eb) in Ep. discriminate.
Qed.

Lemma additive_history_is_clean_witness :
  scan_updates (PStr "m1") (PStr "p1") 0 (PStr "") initial_state
    [text_update ""; text_update "He"; text_update "Hello"; text_update "Hello"]
  = Ok initial_state.
Proof.
  apply (@additive_history_is_clean (PStr "m1") (PStr "p1")
           [text_update ""; text_update "He"; text_update "Hello"; text_update "Hello"]
           initial_state).
  - reflexivity.
  - intros k A B HA HB HA0 HB0.
    destruct k as [|[|[|[|k]]]]; cbn in HA, HB; try discriminate;
      injection HA as <-; injection HB as <-; try reflexivity; now destruct HA0.
Defined.

(** ** Logs of the expected shape *)

Lemma scan_parts_str (mid : pyval) (parts : part_table) (st : scan_state) :
  forallb (fun p => str_texts (snd p)) parts = true ->
  exists st', scan_parts mid st parts = Ok st'.
Proof.
  revert st. induction parts as [|[pid us] parts IH]; intros st H.
  - now exists st.
  - cbn [forallb snd] in H. apply andb_true_iff in H as [H1 H2].
    cbn [scan_parts]. rewrite (scan_updates_str mid pid us 0 "" st H1). cbn [bind].
    now apply IH.
Qed.

Lemma scan_messages_str (mp : message_table) (st : scan_state) :
  str_table mp = true -> exists st', scan_messages st mp = Ok st'.
Proof.
  revert st. induction mp as [|[mid parts] mp IH]; intros st H.
  - now exists st.
  - unfold str_table in H. cbn [forallb snd] in H. apply andb_true_iff in H as [H1 H2].
    cbn [scan_messages]. destruct (scan_parts_str mid parts st H1) as [s ->]. cbn [bind].
    now apply IH.
Qed.

Lemma append_update_str (mp : message_table) (m p : string) (u : update) :
  is_str (text u) = true ->
  str_table mp = true ->
  exists mp', append_update mp (PStr m) (PStr p) u = Ok mp' /\ str_table mp' = true.
Proof.
  intros Hu H. unfold append_update. cbn [hashable negb].
  eexists. split; [reflexivity|].
  unfold str_table. apply dd_update_forallb; [exact H | |].
  - cbn. now rewrite Hu.
  - intros k' parts Hp. cbn [snd] in *.
    apply dd_update_forallb; [exact Hp | |].
    + cbn. now rewrite Hu.
    + intros k2 us Hus. cbn [snd] in *. rewrite str_texts_app, Hus.
      cbn. now rewrite Hu.
Qed.

Lemma truthy_id_str (o : option pyval) :
  id_shape_ok o = true -> truthy (get_default PNone o) = true ->
  exists s, o = Some (PStr s).
Proof.
  destruct o as [v|]; cbn; [|discriminate].
  destruct v; try discriminate. intros _ _. now eexists.
Qed.

Lemma project_data_shape (data : pyval) :
  data_shape_ok data = true ->
  project_data data = Ok None \/
  exists m p u, project_data data = Ok (Some (PStr m, PStr p, u)) /\ is_str (text u) = true.
Proof.
  destruct data as [| | | | | |d]; try discriminate. cbn [data_shape_ok].
  unfold project_data. cbn [py_get bind].
  destruct (is_part_updated (get_default PNone (dict_get "type" d))); [|now left].
  destruct (get_default (PDict []) (dict_get "properties" d)) as [| | | | | |props];
    try discriminate.
  cbn [py_get bind].
  destruct (get_default (PDict []) (dict_get "part" props)) as [| | | | | |part];
    try discriminate.
  cbn [part_shape_ok]. rewrite !andb_true_iff. intros [[Hm Hi] Ht].
  unfold project_part. cbn [py_get bind].
  destruct (truthy (get_default PNone (dict_get "messageID" part))) eqn:Tm; [|now left].
  destruct (truthy (get_default PNone (dict_get "id" part))) eqn:Ti; [|now left].
  destruct (truthy_id_str _ Hm Tm) as [m Em], (truthy_id_str _ Hi Ti) as [p Ep].
  right. rewrite Em, Ep. cbn [get_default andb]. eexists. eexists. eexists.
  split; [reflexivity | exact Ht].
Qed.

Lemma process_line_shape (json_loads : string -> result pyval) (mp : message_table)
    (line : string) :
  line_shape_ok json_loads line = true ->
  str_table mp = true ->
  exists mp', process_line json_loads mp line = Ok mp' /\ str_table mp' = true.
Proof.
  unfold line_shape_ok, process_line, project_line. intros H Hmp.
  destruct (sse_search line) as [payload|]; [|now exists mp].
  destruct (json_loads payload) as [data|e].
  - destruct (project_data_shape data H) as [->|(m & p & u & -> & Hu)]; cbn [bind].
    + now exists mp.
    + now apply append_update_str.
  - destruct e; try discriminate. now exists mp.
Qed.

Lemma read_log_shape (json_loads : string -> result pyval) (lines : list string)
    (mp : message_table) :
  forallb (line_shape_ok json_loads) lines = true ->
  str_table mp = true ->
  exists mp', read_log json_loads mp lines = Ok mp' /\ str_table mp' = true.
Proof.
  revert mp. induction lines as [|line lines IH]; intros mp H Hmp.
  - now exists mp.
  - cbn [forallb] in H. apply andb_true_iff in H as [H1 H2].
    destruct (process_line_shape json_loads mp line H1 Hmp) as (mp1 & E & Hmp1).
    cbn [read_log]. rewrite E. cbn [bind]. now apply IH.
Qed.

(** X10: a log of the expected shape is analysed to the end.  When
    every line either has no match, or has a payload that [json.loads]
    rejects with [JSONDecodeError], or decodes to an object that is no
    part update, or is a part update whose [properties] and
    [properties.part] are objects or absent and whose [messageID], [id]
    and [text] are strings or absent, no exception is raised, and all
    stored texts are strings. *)
Theorem well_shaped_log_completes (json_loads : string -> result pyval)
    (lines : list string) :
  forallb (line_shape_ok json_loads) lines = true ->
  exists mp st,
    analyze_sse_logs json_loads lines = Ok (mp, st) /\ str_table mp = true.
Proof.
  intros H.
  destruct (read_log_shape json_loads lines [] H eq_refl) as (mp & E & Hmp).
  destruct (scan_messages_str mp initial_state Hmp) as [st Es].
  exists mp, st. unfold analyze_sse_logs. rewrite E. cbn [bind]. rewrite Es. now split.
Qed.

Lemma well_shaped_log_completes_witness :
  exists mp st,
    analyze_sse_logs json_decode
      ["plain text" ++ eol; truncated_line; other_event_line; no_id_line;
       event_line "m1" "p1" "Hello"; event_line "m1" "p1" "World"]%string = Ok (mp, st) /\
    str_table mp = true.
Proof.
  apply (@well_shaped_log_completes json_decode
           ["plain text" ++ eol; truncated_line; other_event_line; no_id_line;
            event_line "m1" "p1" "Hello"; event_line "m1" "p1" "World"]%string).
  vm_compute. reflexivity.
Defined.

(** ** Texts without a length *)

Lemma scan_parts_app (mid : pyval) (parts1 parts2 : part_table) (st : scan_state) :
  scan_parts mid st (parts1 ++ parts2)
  = (st1 <- scan_parts mid st parts1 ;; scan_parts mid st1 parts2).
Proof.
  revert st. induction parts1 as [|[pid us] parts1 IH]; intros st; [reflexivity|].
  cbn [app scan_parts].
  destruct (scan_updates mid pid 0 (PStr "") st us); cbn [bind]; [apply IH | reflexivity].
Qed.

Lemma scan_messages_app (mp1 mp2 : message_table) (st : scan_state) :
  scan_messages st (mp1 ++ mp2)
  = (st1 <- scan_messages st mp1 ;; scan_messages st1 mp2).
Proof.
  revert st. induction mp1 as [|[mid parts] mp1 IH]; intros st; [reflexivity|].
  cbn [app scan_messages].
  destruct (scan_parts mid st parts); cbn [bind]; [apply IH | reflexivity].
Qed.

(** X14: a text without a length ends the run.  When the texts stored
    before it (in the order of the scan) are strings and an update has
    a text that is [null], a boolean or a number, [len(text)] at line 63
    raises [TypeError] and no result is returned. *)
Theorem scalar_text_aborts (json_loads : string -> result pyval) (lines : list string)
    (mp1 mp2 : message_table) (mid pid : pyval) (parts1 parts2 : part_table)
    (us1 us2 : list update) (u : update) :
  read_log json_loads [] lines
    = Ok (mp1 ++ (mid, parts1 ++ (pid, us1 ++ u :: us2) :: parts2) :: mp2) ->
  str_table mp1 = true ->
  forallb (fun p => str_texts (snd p)) parts1 = true ->
  str_texts us1 = true ->
  sized (text u) = false ->
  analyze_sse_logs json_loads lines = Raise TypeError.
Proof.
  intros Hr H1 H2 H3 Hu. unfold analyze_sse_logs. rewrite Hr. cbn [bind].
  rewrite scan_messages_app.
  destruct (scan_messages_str mp1 initial_state H1) as [s1 ->]. cbn [bind scan_messages].
  rewrite scan_parts_app.
  destruct (scan_parts_str mid parts1 s1 H2) as [s2 ->]. cbn [bind scan_parts].
  rewrite scan_updates_app, (scan_updates_str mid pid us1 0 "" s2 H3).
  cbn [bind scan_updates]. unfold scan_update.
  destruct (text u); try discriminate; reflexivity.
Qed.

Lemma scalar_text_aborts_witness :
  analyze_sse_logs json_decode [event_line "m1" "p1" "Hello"; number_text_line]
  = Raise TypeError.
Proof.
  apply (@scalar_text_aborts json_decode [event_line "m1" "p1" "Hello"; number_text_line]
           [] [] (PStr "m1") (PStr "p1") [] []
           [event_update "m1" "p1" "Hello"] []
           {| text := PInt 5; type := PNone;
              full_data := PDict [("messageID", PStr "m1"); ("id", PStr "p1");
                                  ("text", PInt 5)] |}).
  all: vm_compute; reflexivity.
Defined.

(** ** What the scan looks at *)

Lemma scan_updates_texts (mid pid : pyval) (us us' : list update) (i : nat) (pv : pyval)
    (st : scan_state) :
  map text us = map text us' ->
  scan_updates mid pid i pv st us = scan_updates mid pid i pv st us'.
Proof.
  revert us' i pv st. induction us as [|u us IH]; intros [|u' us'] i pv st H;
    try discriminate; [reflexivity|].
  cbn [map] in H. injection H as Hu H.
  cbn [scan_updates]. unfold scan_update. rewrite Hu.
  destruct (py_len (text u')); cbn [bind]; [|reflexivity].
  destruct (check_update mid pid i pv (text u') st); cbn [bind]; [|reflexivity].
  destruct (show_text (text u')); cbn [bind]; [|reflexivity].
  now apply IH.
Qed.

Lemma scan_parts_texts (mid : pyval) (parts parts' : part_table) (st : scan_state) :
  map (fun p => (fst p, map text (snd p))) parts
  = map (fun p => (fst p, map text (snd p))) parts' ->
  scan_parts mid st parts = scan_parts mid st parts'.
Proof.
  revert parts' st. induction parts as [|[pid us] parts IH]; intros [|[pid' us'] parts'] st H;
    try discriminate; [reflexivity|].
  cbn [map fst snd] in H. injection H as -> Hu H.
  cbn [scan_parts]. rewrite (scan_updates_texts mid pid' us us' 0 (PStr "") st Hu).
  destruct (scan_updates mid pid' 0 (PStr "") st us'); cbn [bind]; [|reflexivity].
  now apply IH.
Qed.

(** X15: the scan looks at the keys and the texts only.  Two tables
    with the same keys and the same texts, whatever the part types and
    the other fields of their updates are, give the same flag and the
    same entries, or the same exception. *)
Theorem scan_depends_on_texts_only (mp mp' : message_table) (st : scan_state) :
  table_texts mp = table_texts mp' ->
  scan_messages st mp = scan_messages st mp'.
Proof.
  revert mp' st. induction mp as [|[mid parts] mp IH]; intros [|[mid' parts'] mp'] st H;
    try discriminate; [reflexivity|].
  unfold table_texts in H. cbn [map fst snd] in H. injection H as -> Hp H.
  cbn [scan_messages]. rewrite (scan_parts_texts mid' parts parts' st Hp).
  destruct (scan_parts mid' st parts'); cbn [bind]; [|reflexivity].
  now apply IH.
Qed.

Lemma scan_depends_on_texts_only_witness :
  scan_messages initial_state
    [(PStr "m1", [(PStr "p1", [event_update "m1" "p1" "Hello"; event_update "m1" "p1" "Hel"])])]
  = scan_messages initial_state
      [(PStr "m1", [(PStr "p1", [text_update "Hello"; text_update "Hel"])])].
Proof.
  apply (@scan_depends_on_texts_only
           [(PStr "m1", [(PStr "p1", [event_update "m1" "p1" "Hello";
                                      event_update "m1" "p1" "Hel"])])]
           [(PStr "m1", [(PStr "p1", [text_update "Hello"; text_update "Hel"])])]
           initial_state).
  reflexivity.
Defined.

(** * The analysis of duplicate part identifiers *)

Lemma dd_lookup_in {V : Type} (k : pyval) (d : list (pyval * V)) (v : V) :
  dd_lookup k d = Some v -> exists k', In (k', v) d /\ key_eqb k' k = true.
Proof.
  induction d as [|[k0 v0] d IH]; [discriminate|].
  cbn [dd_lookup]. destruct (key_eqb k0 k) eqn:E.
  - intros [= <-]. exists k0. split; [now left | exact E].
  - intros H. destruct (IH H) as (k' & Hin & Hk). exists k'. split; [now right | exact Hk].
Qed.

Lemma keys_distinct_head (k0 k : pyval) (ks : list pyval) :
  keys_distinct (k0 :: ks) = true -> In k ks -> key_eqb k0 k = false.
Proof.
  cbn [keys_distinct]. rewrite andb_true_iff, negb_true_iff. intros [H _] Hin.
  destruct (key_eqb k0 k) eqn:E; [|reflexivity].
  rewrite <- H. symmetry. apply existsb_exists. now exists k.
Qed.

Lemma dd_lookup_own {V : Type} (k : pyval) (v : V) (d : list (pyval * V)) :
  keys_distinct (map fst d) = true ->
  key_eqb k k = true ->
  In (k, v) d ->
  dd_lookup k d = Some v.
Proof.
  intros Hd Hk. induction d as [|[k0 v0] d IH]; [intros []|].
  cbn [dd_lookup]. intros [H|H].
  - injection H as -> ->. now rewrite Hk.
  - cbn [map fst] in Hd.
    rewrite (@keys_distinct_head k0 k (map fst d) Hd (in_map fst _ _ H)).
    apply IH; [|exact H]. cbn [keys_distinct] in Hd. now apply andb_true_iff in Hd as [_ Hd].
Qed.

Lemma two_elements {A : Type} (a b : A) (l : list A) :
  In a l -> In b l -> a <> b -> 2 <= List.length l.
Proof.
  destruct l as [|x [|y l]]; cbn; try tauto; [|lia].
  intros [<-|[]] [<-|[]] H. now destruct H.
Qed.

Lemma history_in (mp : message_table) (m p : string) :
  history mp (PStr m) (PStr p) <> [] ->
  exists parts us,
    In (PStr m, parts) mp /\ In (PStr p, us) parts.
Proof.
  unfold history.
  destruct (dd_lookup (PStr m) mp) as [parts|] eqn:E; [|now intros []].
  destruct (dd_lookup (PStr p) parts) as [us|] eqn:F; [|now intros []].
  intros _. apply dd_lookup_in in E as (k & Hin & Hk), F as (k' & Hin' & Hk').
  apply key_eqb_str_r in Hk, Hk'. subst. now exists parts, us.
Qed.

Lemma forallb_in {A : Type} (P : A -> bool) (l : list A) (a : A) :
  forallb P l = true -> In a l -> P a = true.
Proof. intros H. now apply forallb_forall. Qed.

Lemma part_keys_append_update (mp mp' : message_table) (km kp : pyval) (u : update)
    (m : string) :
  append_update mp km kp u = Ok mp' ->
  part_keys mp' m
  = if key_eqb km (PStr m) then add_key (part_keys mp m) kp else part_keys mp m.
Proof.
  unfold append_update.
  destruct (hashable km); [|discriminate]. destruct (hashable kp); [|discriminate].
  cbn [negb]. intros [= <-]. unfold part_keys.
  destruct (key_eqb km (PStr m)) eqn:E.
  - apply key_eqb_str_r in E. subst km.
    rewrite (dd_lookup_update _ _ _ _ (key_eqb_str_refl m)), dd_update_keys.
    unfold add_key. now destruct (dd_lookup (PStr m) mp).
  - now rewrite (dd_lookup_update_other _ _ _ _ _ E).
Qed.

Lemma read_log_part_keys (json_loads : string -> result pyval) (lines : list string)
    (mp mp' : message_table) (m : string) :
  read_log json_loads mp lines = Ok mp' ->
  part_keys mp' m
  = fold_left add_key (event_part_keys json_loads (PStr m) lines) (part_keys mp m).
Proof.
  revert mp. induction lines as [|line lines IH]; intros mp; [now intros [= <-]|].
  cbn [read_log]. unfold process_line at 1.
  unfold event_part_keys. cbn [flat_map]. rewrite fold_left_app.
  fold (event_part_keys json_loads (PStr m) lines).
  destruct (project_line json_loads line) as [[[[km kp] u]|]|e]; cbn [bind]; [| |discriminate].
  - destruct (append_update mp km kp u) as [mp1|] eqn:E; cbn [bind]; [|discriminate].
    intros H. rewrite (IH _ H), (part_keys_append_update _ _ _ _ m E).
    now destruct (key_eqb km (PStr m)).
  - intros H. now rewrite (IH _ H).
Qed.

(** X16: the messages with more than one part.  After a log has been
    read, a message with string key for which two different string part
    identifiers have a history is listed with both of them; every
    listed message has at least two part identifiers, no two of them
    equal, each with a non-empty history; and for a listed message with
    a string key the part identifiers listed are those of its part
    updates in the log, each once, in the order of their first
    appearance. *)
Theorem duplicate_parts_listed (json_loads : string -> result pyval)
    (lines : list string) (mp : message_table) :
  read_log json_loads [] lines = Ok mp ->
  (forall m p1 p2 : string,
     p1 <> p2 ->
     history mp (PStr m) (PStr p1) <> [] ->
     history mp (PStr m) (PStr p2) <> [] ->
     exists n pids,
       In (PStr m, n, pids) (duplicate_part_ids mp) /\
       In (PStr p1) pids /\ In (PStr p2) pids) /\
  (forall k n pids,
     In (k, n, pids) (duplicate_part_ids mp) ->
     n = List.length pids /\ 2 <= n /\ keys_distinct pids = true /\
     forall p, In p pids -> history mp k p <> []) /\
  (forall (m : string) n pids,
     In (PStr m, n, pids) (duplicate_part_ids mp) ->
     pids = first_seen (event_part_keys json_loads (PStr m) lines)).
Proof.
  intros Hr. split; [|split].
  - intros m p1 p2 Hne H1 H2.
    apply history_in in H1 as (parts & us1 & Hm & Hp1).
    unfold history in H2.
    destruct (dd_lookup (PStr m) mp) as [parts'|] eqn:E; [|now destruct H2].
    destruct (dd_lookup (PStr p2) parts') as [us2|] eqn:F; [|now destruct H2].
    apply dd_lookup_in in F as (k2 & Hp2 & Hk2). apply key_eqb_str_r in Hk2. subst k2.
    assert (Hok : table_ok mp = true)
      by exact (@read_log_keeps_table_ok json_loads lines [] mp eq_refl Hr).
    unfold table_ok in Hok. apply andb_true_iff in Hok as [Hd Hf].
    rewrite (@dd_lookup_own part_table (PStr m) parts mp Hd (key_eqb_str_refl m) Hm) in E.
    injection E as <-.
    assert (Hlen : 2 <= List.length parts).
    { apply (@two_elements _ _ _ parts Hp1 Hp2). intros [= ? _]. now destruct Hne. }
    exists (List.length parts), (map fst parts). split; [|split].
    + unfold duplicate_part_ids. apply in_flat_map. exists (PStr m, parts).
      split; [exact Hm|]. cbn [fst snd].
      destruct (1 <? List.length parts)%nat eqn:L; [now left|].
      apply Nat.ltb_ge in L. lia.
    + exact (in_map fst _ _ Hp1).
    + exact (in_map fst _ _ Hp2).
  - intros k n pids Hin.
    assert (Hok : table_ok mp = true)
      by exact (@read_log_keeps_table_ok json_loads lines [] mp eq_refl Hr).
    unfold table_ok in Hok. apply andb_true_iff in Hok as [Hd Hf].
    unfold duplicate_part_ids in Hin. apply in_flat_map in Hin as ([k' parts] & Hm & Hin).
    cbn [fst snd] in Hin.
    destruct (1 <? List.length parts)%nat eqn:L; [|now destruct Hin].
    destruct Hin as [Hin|[]]. injection Hin as -> <- <-.
    apply Nat.ltb_lt in L.
    pose proof (@forallb_in _ _ mp _ Hf Hm) as Hmok. unfold message_ok in Hmok.
    cbn [fst snd] in Hmok.
    apply andb_true_iff in Hmok as [Hmok H4]. apply andb_true_iff in Hmok as [Hmok H3].
    apply andb_true_iff in Hmok as [H1 _]. apply usable_key_iff in H1 as [_ Hk].
    rewrite length_map. repeat split; [lia | exact H3 |].
    intros p Hp. apply in_map_iff in Hp as ([p' us] & <- & Hp). cbn [fst].
    pose proof (@forallb_in _ _ parts _ H4 Hp) as Hpok. unfold part_ok in Hpok. cbn [fst snd] in Hpok.
    apply andb_true_iff in Hpok as [Hu Hl]. apply usable_key_iff in Hu as [_ Hh].
    unfold history.
    rewrite (@dd_lookup_own part_table k parts mp Hd (@key_eqb_refl k Hk) Hm).
    rewrite (@dd_lookup_own _ p' us parts H3 (@key_eqb_refl p' Hh) Hp).
    intros ->. discriminate.
  - intros m n pids Hin.
    assert (Hok : table_ok mp = true)
      by exact (@read_log_keeps_table_ok json_loads lines [] mp eq_refl Hr).
    unfold table_ok in Hok. apply andb_true_iff in Hok as [Hd _].
    unfold duplicate_part_ids in Hin. apply in_flat_map in Hin as ([k' parts] & Hm & Hin).
    cbn [fst snd] in Hin.
    destruct (1 <? List.length parts)%nat; [|now destruct Hin].
    destruct Hin as [Hin|[]]. injection Hin as -> _ <-.
    pose proof (read_log_part_keys json_loads lines [] m Hr) as Hk.
    change (part_keys [] m) with (@nil pyval) in Hk.
    unfold first_seen. rewrite <- Hk. unfold part_keys.
    now rewrite (@dd_lookup_own part_table (PStr m) parts mp Hd (key_eqb_str_refl m) Hm).
Qed.

Lemma duplicate_parts_listed_witness :
  exists n pids,
    In (PStr "m1", n, pids)
       (duplicate_part_ids
          [(PStr "m1", [(PStr "p1", [event_update "m1" "p1" "a"]);
                        (PStr "p2", [event_update "m1" "p2" "b"])]);
           (PStr "m2", [(PStr "p1", [event_update "m2" "p1" "c"])])]) /\
    In (PStr "p1") pids /\ In (PStr "p2") pids.
Proof.
  apply (proj1 (@duplicate_parts_listed json_decode
                  [event_line "m1" "p1" "a"; event_line "m2" "p1" "c"; event_line "m1" "p2" "b"]
                  [(PStr "m1", [(PStr "p1", [event_update "m1" "p1" "a"]);
                                (PStr "p2", [event_update "m1" "p2" "b"])]);
                   (PStr "m2", [(PStr "p1", [event_update "m2" "p1" "c"])])]
                  ltac:(vm_compute; reflexivity))
           "m1" "p1" "p2");
    discriminate.
Defined.

(** ** Update numbers *)

Lemma findings_sorted (mid pid : pyval) (texts : list string) (i : nat) (p : string) :
  StronglySorted lt
    (map update_num
       (flat_map (fun q => pair_findings mid pid (fst q) (fst (snd q)) (snd (snd q)))
          (adjacent_pairs i p texts))).
Proof.
  revert i p. induction texts as [|t texts IH]; intros i p; [constructor|].
  rewrite adjacent_pairs_cons. cbn [flat_map fst snd]. rewrite map_app.
  unfold pair_findings at 1.
  destruct (violates p t && negb (lcp p t =? "")); cbn [map app update_num]; [|apply IH].
  constructor; [apply IH|].
  apply Forall_forall. intros n Hn. apply in_map_iff in Hn as (f & <- & Hf).
  apply later_findings_num in Hf. lia.
Qed.

(** X17: no update is reported twice.  In a scan of a part that
    completes, whatever values its texts are, the entries added for the
    part have strictly increasing update numbers, all of them between 2
    and the number of updates of the part. *)
Theorem part_entries_increase (mid pid : pyval) (us : list update) (st st' : scan_state) :
  scan_updates mid pid 0 (PStr "") st us = Ok st' ->
  exists added,
    prefix_changes st' = prefix_changes st ++ added /\
    StronglySorted lt (map update_num added) /\
    Forall (fun f => 2 <= update_num f <= List.length us) added.
Proof.
  intros H. apply scan_updates_general in H. subst st'.
  eexists. split; [reflexivity|]. split; [apply findings_sorted|].
  apply Forall_forall. intros f Hf. cbn [str_of] in Hf.
  apply in_flat_map in Hf as ([n [a b]] & Hq & Hf). cbn [fst snd] in Hf.
  apply in_pair_findings in Hf as [-> Hv]. cbn [update_num].
  apply violates_true_iff in Hv as (Ha & _).
  apply in_adjacent_pairs in Hq as (k & -> & Hka & Hkb).
  destruct k as [|k]; [cbn in Hka; injection Hka as <-; now destruct Ha|].
  assert (Hl : k < List.length (texts_of us)).
  { apply nth_error_Some. cbn [nth_error] in Hka. congruence. }
  assert (Hl' : S k < List.length (texts_of us)) by (apply nth_error_Some; congruence).
  unfold texts_of in Hl'. rewrite length_map in Hl'. lia.
Qed.

Lemma part_entries_increase_witness :
  exists added,
    prefix_changes
      {| erasure_found := true;
         prefix_changes :=
           [{| message_id := PStr "m1"; part_id := PStr "p1"; update_num := 2;
               prev := "Hello"; curr := "Help"; common_prefix := "Hel" |};
            {| message_id := PStr "m1"; part_id := PStr "p1"; update_num := 4;
               prev := "Help!"; curr := "Heat"; common_prefix := "He" |}] |}
    = prefix_changes initial_state ++ added /\
    StronglySorted lt (map update_num added) /\
    Forall (fun f => 2 <= update_num f <= 4) added.
Proof.
  apply (@part_entries_increase (PStr "m1") (PStr "p1")
           [text_update "Hello"; text_update "Help"; text_update "Help!"; text_update "Heat"]
           initial_state).
  vm_compute. reflexivity.
Defined.

(** * Properties of [fibonacci] *)

Lemma fib_number_step (k : nat) :
  fib_number (S (S k)) = (fib_number (S k) + fib_number k)%Z.
Proof. unfold fib_number. cbn [fib_pair fst snd]. lia. Qed.

(** X18: [fibonacci] computes the Fibonacci numbers.  Whenever a call
    returns, its value is the argument itself for a negative argument,
    and the Fibonacci number of that index (counted from 0, 1, 1, 2)
    for an argument that is not negative; the value does not depend on
    the frames that were available. *)
Theorem fibonacci_value (depth : nat) (n v : Z) :
  fibonacci depth n = Ok v ->
  ((n < 0)%Z -> v = n) /\
  ((0 <= n)%Z -> v = fib_number (Z.to_nat n)).
Proof.
  revert n v. induction depth as [|depth IH]; intros n v; [discriminate|].
  cbn [fibonacci]. destruct (n <=? 1)%Z eqn:E.
  - intros [= <-]. apply Z.leb_le in E. split; [reflexivity|].
    intros Hn. assert (Hc : n = 0%Z \/ n = 1%Z) by lia.
    destruct Hc as [->| ->]; reflexivity.
  - apply Z.leb_gt in E.
    destruct (fibonacci depth (n - 1)) as [a|] eqn:Ea; cbn [bind]; [|discriminate].
    destruct (fibonacci depth (n - 2)) as [b|] eqn:Eb; cbn [bind]; [|discriminate].
    intros [= <-]. split; [lia|]. intros _.
    destruct (IH _ _ Ea) as [_ Ha]. destruct (IH _ _ Eb) as [_ Hb].
    rewrite Ha, Hb by lia.
    replace (Z.to_nat n) with (S (S (Z.to_nat (n - 2)))) by lia.
    replace (Z.to_nat (n - 1)) with (S (Z.to_nat (n - 2))) by lia.
    now rewrite fib_number_step.
Qed.

Lemma fibonacci_value_witness :
  ((10 < 0)%Z -> 55%Z = 10%Z) /\
  ((0 <= 10)%Z -> 55%Z = fib_number (Z.to_nat 10)).
Proof.
  apply (@fibonacci_value 10 10 55). reflexivity.
Defined.

(** X19: the frames [fibonacci] needs.  A call with argument [n]
    returns when at least [n] frames, and at least one, are available,
    and raises [RecursionError] otherwise. *)
Theorem fibonacci_depth (depth : nat) (n : Z) :
  ((Z.max 1 n <= Z.of_nat depth)%Z -> exists v, fibonacci depth n = Ok v) /\
  ((Z.of_nat depth < Z.max 1 n)%Z -> fibonacci depth n = Raise RecursionError).
Proof.
  revert n. induction depth as [|depth IH]; intros n.
  - split; [lia | reflexivity].
  - cbn [fibonacci]. destruct (n <=? 1)%Z eqn:E.
    + apply Z.leb_le in E. split; [now exists n | lia].
    + apply Z.leb_gt in E. split; intros H.
      * destruct (proj1 (IH (n - 1)%Z)) as [a ->]; [lia|].
        destruct (proj1 (IH (n - 2)%Z)) as [b ->]; [lia|].
        cbn [bind]. now eexists.
      * rewrite (proj2 (IH (n - 1)%Z)) by lia. reflexivity.
Qed.

Lemma fibonacci_depth_witness :
  (exists v, fibonacci 5 5 = Ok v) /\ fibonacci 4 5 = Raise RecursionError.
Proof.
  split.
  - apply (proj1 (fibonacci_depth 5 5)). reflexivity || lia.
  - apply (proj2 (fibonacci_depth 4 5)). reflexivity || lia.
Defined.

(** * The recording of part updates in a log *)

Lemma bind_ok {A : Type} (r : result A) : (x <- r ;; Ok x) = r.
Proof. now destruct r. Qed.

Lemma read_log_snoc (json_loads : string -> result pyval) (mp0 : message_table)
    (before : list string) (line : string) :
  read_log json_loads mp0 (before ++ [line])
  = (mp <- read_log json_loads mp0 before ;; process_line json_loads mp line).
Proof.
  rewrite read_log_app. destruct (read_log json_loads mp0 before); cbn [bind]; [|reflexivity].
  cbn [read_log]. apply bind_ok.
Qed.

(** The history of a part with string keys after more lines have been
    read. *)
Lemma read_log_history (json_loads : string -> result pyval) (lines : list string)
    (mp mp' : message_table) (m p : string) :
  read_log json_loads mp lines = Ok mp' ->
  history mp' (PStr m) (PStr p)
  = history mp (PStr m) (PStr p) ++ event_updates json_loads (PStr m) (PStr p) lines.
Proof.
  revert mp. induction lines as [|line lines IH]; intros mp.
  - intros [= <-]. cbn. now rewrite app_nil_r.
  - cbn [read_log]. unfold process_line at 1.
    unfold event_updates. cbn [flat_map]. fold (event_updates json_loads (PStr m) (PStr p) lines).
    destruct (project_line json_loads line) as [[[[km kp] u]|]|e]; cbn [bind]; [| |discriminate].
    + destruct (append_update mp km kp u) as [mp1|] eqn:E; cbn [bind]; [|discriminate].
      intros H. rewrite (IH _ H), (history_append_update _ _ _ _ _ _ E).
      now rewrite app_assoc.
    + intros H. now rewrite (IH _ H).
Qed.

(** C6: a line of the log changes [message_parts] exactly when it
    carries a part update: the marker is followed by a payload that
    decodes to an object whose [type] is [message.part.updated] and
    whose [properties.part] holds a [messageID] and an [id] that are
    present and non-empty (they pass the test of line 32 and can be
    hashed; for a string this is to be non-empty).  This holds of one
    iteration of the loop on any table, and of the reader on any log:
    when the lines before it have been read, the table after the line
    differs from the table before it exactly when the line carries a
    part update; the update is then at the end of the history of its
    part, the rest of the log is read from that table, and in the table
    of the whole log the update stands after the earlier history of its
    part and before the later updates of that part.  Every other line
    leaves the table to the rest of the log as it found it, or ends the
    run with an exception; a line without the marker always leaves it.
    The table that [analyze_sse_logs] returns is the one the reader
    built. *)
Theorem part_update_recorded_iff (json_loads : string -> result pyval)
    (mp : message_table) (line : string) :
  ((exists mp', process_line json_loads mp line = Ok mp' /\ mp' <> mp) <->
   (exists m p u, part_update_event json_loads line m p u)) /\
  (forall m p u,
     part_update_event json_loads line m p u ->
     exists mp',
       process_line json_loads mp line = Ok mp' /\
       history mp' m p = history mp m p ++ [u]) /\
  (~ contains_marker line -> process_line json_loads mp line = Ok mp) /\
  (forall s, usable_key (PStr s) = true <-> s <> "") /\
  (forall (before after : list string) (mp0 : message_table),
     read_log json_loads mp0 before = Ok mp ->
     ((exists mp', read_log json_loads mp0 (before ++ [line]) = Ok mp' /\ mp' <> mp) <->
      (exists m p u, part_update_event json_loads line m p u)) /\
     (forall m p u,
        part_update_event json_loads line m p u ->
        exists mp',
          read_log json_loads mp0 (before ++ [line]) = Ok mp' /\
          history mp' m p = history mp m p ++ [u] /\
          read_log json_loads mp0 (before ++ line :: after) = read_log json_loads mp' after) /\
     (forall (m p : string) u mp3,
        part_update_event json_loads line (PStr m) (PStr p) u ->
        read_log json_loads mp0 (before ++ line :: after) = Ok mp3 ->
        history mp3 (PStr m) (PStr p)
        = history mp (PStr m) (PStr p)
          ++ u :: event_updates json_loads (PStr m) (PStr p) after) /\
     (~ (exists m p u, part_update_event json_loads line m p u) ->
      read_log json_loads mp0 (before ++ line :: after) = read_log json_loads mp after \/
      exists e, read_log json_loads mp0 (before ++ line :: after) = Raise e) /\
     (~ contains_marker line ->
      read_log json_loads mp0 (before ++ line :: after) = read_log json_loads mp after)) /\
  (forall lines mp' st,
     analyze_sse_logs json_loads lines = Ok (mp', st) ->
     read_log json_loads [] lines = Ok mp').
Proof.
  assert (Step : (exists mp', process_line json_loads mp line = Ok mp' /\ mp' <> mp) <->
                 (exists m p u, part_update_event json_loads line m p u)).
  { split.
    - intros (mp' & H & Hne). unfold process_line in H.
      destruct (project_line json_loads line) as [[[[m p] u]|]|e] eqn:E;
        cbn [bind] in H; [| |discriminate].
      + exists m, p, u. apply event_iff_projection. split; [exact E|].
        unfold append_update in H.
        destruct (hashable m); [|discriminate].
        destruct (hashable p); [|discriminate]. now split.
      + injection H as <-. now destruct Hne.
    - intros (m & p & u & H).
      destruct (event_recorded mp H) as (mp' & Hp & Hh).
      exists mp'. split; [exact Hp|].
      intros ->. symmetry in Hh. now apply snoc_neq in Hh. }
  assert (NoMarker : ~ contains_marker line -> process_line json_loads mp line = Ok mp).
  { intros H. unfold process_line, project_line. now rewrite (no_marker_no_match H). }
  split; [exact Step|]. split; [intros m p u; apply event_recorded|].
  split; [exact NoMarker|]. split; [apply usable_key_str|]. split.
  - intros before after mp0 Hb.
    assert (E1 : read_log json_loads mp0 (before ++ [line]) = process_line json_loads mp line)
      by now rewrite read_log_snoc, Hb.
    assert (E2 : read_log json_loads mp0 (before ++ line :: after)
                 = (mp' <- process_line json_loads mp line ;; read_log json_loads mp' after))
      by now rewrite read_log_app, Hb.
    split; [now rewrite E1|]. split; [|split; [|split]].
    + intros m p u H. destruct (event_recorded mp H) as (mp' & P & Hh).
      exists mp'. rewrite E1, E2, P. cbn [bind]. auto.
    + intros m p u mp3 H Hr. destruct (event_recorded mp H) as (mp' & P & Hh).
      rewrite E2, P in Hr. cbn [bind] in Hr.
      rewrite (@read_log_history json_loads after mp' mp3 m p Hr), Hh, <- app_assoc. reflexivity.
    + intros Hno. rewrite E2. unfold process_line.
      destruct (project_line json_loads line) as [[[[m p] u]|]|e] eqn:E; cbn [bind].
      * destruct (append_update mp m p u) as [mp'|e] eqn:A; cbn [bind].
        -- exfalso. apply Hno. exists m, p, u. apply event_iff_projection.
           split; [exact E|]. unfold append_update in A.
           destruct (hashable m); [|discriminate].
           destruct (hashable p); [|discriminate]. now split.
        -- right. now exists e.
      * now left.
      * right. now exists e.
    + intros Hm. now rewrite E2, (NoMarker Hm).
  - intros lines mp' st. unfold analyze_sse_logs.
    destruct (read_log json_loads [] lines) as [mp1|]; cbn [bind]; [|discriminate].
    destruct (scan_messages initial_state mp1); cbn [bind]; [|discriminate].
    now intros [= <- _].
Qed.

Lemma part_update_recorded_iff_witness :
  (exists mp',
     read_log json_decode []
       ([event_line "m1" "p1" "H"; truncated_line] ++ [event_line "m1" "p1" "Hi"]) = Ok mp' /\
     mp' <> [(PStr "m1", [(PStr "p1", [event_update "m1" "p1" "H"])])]) /\
  (forall mp3,
     read_log json_decode []
       ([event_line "m1" "p1" "H"; truncated_line] ++ event_line "m1" "p1" "Hi"
          :: [other_event_line; event_line "m1" "p1" "Hi!"]) = Ok mp3 ->
     history mp3 (PStr "m1") (PStr "p1")
     = history [(PStr "m1", [(PStr "p1", [event_update "m1" "p1" "H"])])]
         (PStr "m1") (PStr "p1")
       ++ event_update "m1" "p1" "Hi"
          :: event_updates json_decode (PStr "m1") (PStr "p1")
               [other_event_line; event_line "m1" "p1" "Hi!"]).
Proof.
  destruct (part_update_recorded_iff json_decode
              [(PStr "m1", [(PStr "p1", [event_update "m1" "p1" "H"])])]
              (event_line "m1" "p1" "Hi")) as (_ & _ & _ & _ & Hlog & _).
  destruct (Hlog [event_line "m1" "p1" "H"; truncated_line]
                 [other_event_line; event_line "m1" "p1" "Hi!"] []) as (Hiff & _ & Hall & _).
  - vm_compute. reflexivity.
  - assert (Hev : part_update_event json_decode (event_line "m1" "p1" "Hi")
                    (PStr "m1") (PStr "p1") (event_update "m1" "p1" "Hi")).
    { apply event_line_event; [vm_compute; reflexivity | discriminate | discriminate]. }
    split.
    + apply (proj2 Hiff). now exists (PStr "m1"), (PStr "p1"), (event_update "m1" "p1" "Hi").
    + intros mp3. now apply Hall.
Defined.

(** The log for which the table was computed in the statement above
    gives the three updates of the part in the order of the lines. *)
Example recorded_in_line_order :
  exists mp st,
    analyze_sse_logs json_decode
      [event_line "m1" "p1" "H"; truncated_line; event_line "m1" "p1" "Hi";
       other_event_line; event_line "m1" "p1" "Hi!"] = Ok (mp, st) /\
    texts_of (history mp (PStr "m1") (PStr "p1")) = ["H"; "Hi"; "Hi!"].
Proof. eexists. eexists. split; vm_compute; reflexivity. Qed.

(** The part identifiers of a message are listed in the order in which
    the log first shows them. *)
Example duplicate_parts_in_order :
  option_map duplicate_part_ids
    (match read_log json_decode []
             [event_line "m1" "p2" "a"; event_line "m1" "p1" "b"; event_line "m1" "p2" "ab"]
     with Ok mp => Some mp | Raise _ => None end)
  = Some [(PStr "m1", 2, [PStr "p2"; PStr "p1"])].
Proof. vm_compute. reflexivity. Qed.
